(** * Funding-rounds dashboard ([data_app.py]): the tabular pipeline

    The script loads one table of funding rounds, explodes its two
    multi-valued text columns and feeds six group/aggregate/rank analyses
    to the charts.  This file embeds that pipeline (everything between
    [load_data] and the chart calls) and proves the properties stated
    about it.

    Modelling conventions.
    - A pandas [DataFrame] is the list of its rows, in positional order; a
      [Series] indexed by group labels is an association list, in index
      order.
    - A Python [str] is a Rocq [string] whose characters are the code
      points below 256.
    - The money column is an exact rational ([Q]) and no amount is
      missing; the quotient computed for the [money_per_investor] column
      is a float outcome ([fval]) so that an infinite or undefined quotient
      can be told apart from a finite one.  Sums, quotients and means are
      those of exact arithmetic: the rounding of float64 results is not
      modelled.
    - [sort_values] is the interface [SortValues]: a descending
      rearrangement whose order among equal values is left to the sort
      routine, with [stable_sort_values] as one instance. *)

From Stdlib Require Import List String Ascii Bool Arith ZArith QArith Lia.
From Stdlib Require Import Permutation Sorted Morphisms RelationClasses.
Import ListNotations.

Set Implicit Arguments.
Close Scope Q_scope.
Local Open Scope string_scope.
Local Open Scope list_scope.

(** ** Strings *)

Module Str.

(** [s.split(', ')]: the pieces of [s] between the occurrences of the
    two-character separator, found left to right.  The result is never
    empty, so it is a first piece and the list of those after it. *)
Fixpoint split (s : string) : string * list string :=
  match s with
  | EmptyString => (EmptyString, [])
  | String c s' =>
      match s' with
      | String c' rest =>
          if Ascii.eqb c "," && Ascii.eqb c' " " then
            let (h, t) := split rest in (EmptyString, h :: t)
          else
            let (h, t) := split s' in (String c h, t)
      | EmptyString => (String c EmptyString, [])
      end
  end.

Definition pieces (p : string * list string) : list string := fst p :: snd p.

(** [', '.join(l)] *)
Fixpoint join (l : list string) : string :=
  match l with
  | [] => EmptyString
  | [x] => x
  | x :: rest => x ++ ", " ++ join rest
  end.

(** [c.isspace()] on the code points below 256. *)
Definition isspace (c : ascii) : bool :=
  let n := nat_of_ascii c in
  (((9 <=? n) && (n <=? 13)) || ((28 <=? n) && (n <=? 32))
   || (n =? 133) || (n =? 160))%nat.

Fixpoint lstrip (s : string) : string :=
  match s with
  | EmptyString => EmptyString
  | String c s' => if isspace c then lstrip s' else s
  end.

(** [rstrip]: drop the trailing whitespace. *)
Fixpoint rstrip (s : string) : string :=
  match s with
  | EmptyString => EmptyString
  | String c s' =>
      match rstrip s' with
      | EmptyString => if isspace c then EmptyString else String c EmptyString
      | r => String c r
      end
  end.

(** [s.strip()] *)
Definition strip (s : string) : string := rstrip (lstrip s).

(** [Series.replace(old, new)] on one cell: only a cell equal to [old] as a
    whole is replaced. *)
Definition replace_cell (old new s : string) : string :=
  if String.eqb s old then new else s.

End Str.

(** ** Group labels

    [groupby] returns its groups in ascending label order ([sort=True]);
    a label is compared as Python compares strings, or tuples of strings. *)

Class Key (K : Type) := {
  key_eqb : K -> K -> bool;
  key_leb : K -> K -> bool
}.

#[export] Instance string_key : Key string := {
  key_eqb := String.eqb;
  key_leb := String.leb
}.

#[export] Instance pair_key {A B : Type} `{Key A} `{Key B} : Key (A * B) := {
  key_eqb p q := key_eqb (fst p) (fst q) && key_eqb (snd p) (snd q);
  key_leb p q :=
    if key_eqb (fst p) (fst q) then key_leb (snd p) (snd q)
    else key_leb (fst p) (fst q)
}.

(** What grouping needs of a label order. *)
Class KeyLaws (K : Type) `{Key K} : Prop := {
  key_eqb_eq : forall a b : K, key_eqb a b = true <-> a = b;
  key_leb_total : forall a b : K, key_leb a b = true \/ key_leb b a = true;
  key_leb_antisym :
    forall a b : K, key_leb a b = true -> key_leb b a = true -> a = b;
  key_leb_trans :
    forall a b c : K,
      key_leb a b = true -> key_leb b c = true -> key_leb a c = true
}.
Arguments KeyLaws K {_}.

(** ** Float outcomes of the one division the script performs *)

Inductive fval : Type :=
| Fin (q : Q)
| PInf
| NInf
| NaN.

(** Element-wise [x / d] of a float column by an integer column: a zero
    divisor gives an infinity, or NaN for [0 / 0]; nothing is raised.  The
    quotient by a non-zero divisor is the exact rational, where float64
    division gives the nearest representable number. *)
Definition fdiv (x : Q) (d : Z) : fval :=
  if (d =? 0)%Z then
    match (x ?= 0)%Q with
    | Eq => NaN
    | Gt => PInf
    | Lt => NInf
    end
  else Fin (x / inject_Z d)%Q.

Definition fadd (a b : fval) : fval :=
  match a, b with
  | NaN, _ | _, NaN => NaN
  | Fin x, Fin y => Fin (x + y)%Q
  | PInf, NInf | NInf, PInf => NaN
  | PInf, _ | _, PInf => PInf
  | NInf, _ | _, NInf => NInf
  end.

Definition is_nan (a : fval) : bool :=
  match a with NaN => true | _ => false end.

(** [sum()] of a float column: missing values are skipped.  The additions
    are exact, where float64 additions round. *)
Definition fsum (l : list fval) : fval :=
  fold_left fadd (filter (fun a => negb (is_nan a)) l) (Fin 0).

(** ** Rows and tables *)

(** One funding round.  [I] and [V] are the types of the cells of the two
    multi-valued columns: a [string] as loaded and after [explode], the
    result of a split in between.  [money_raised] is an amount that is
    present: a table with a missing amount is outside this model. *)
Record Row (I V : Type) : Type := mkRow {
  organization_name : string;
  organization_industries : I;
  investor_names : V;
  money_raised : Q;
  investor_count_computed : Z
}.

Definition DataFrame (I V : Type) : Type := list (Row I V).

(** The table [load_data] returns: both text columns hold strings (a
    missing cell has become the empty string). *)
Definition Table : Type := DataFrame string string.

Definition set_industries {I I' V : Type} (i : I') (r : Row I V) : Row I' V :=
  mkRow (organization_name r) i (investor_names r)
        (money_raised r) (investor_count_computed r).

Definition set_investors {I V V' : Type} (v : V') (r : Row I V) : Row I V' :=
  mkRow (organization_name r) (organization_industries r) v
        (money_raised r) (investor_count_computed r).

(** [df.assign(organization_industries = f(df['organization_industries']))] *)
Definition assign_industries {I I' V : Type} (f : I -> I')
  (df : DataFrame I V) : DataFrame I' V :=
  map (fun r => set_industries (f (organization_industries r)) r) df.

Definition assign_investors {I V V' : Type} (f : V -> V')
  (df : DataFrame I V) : DataFrame I V' :=
  map (fun r => set_investors (f (investor_names r)) r) df.

(** [df.explode('organization_industries')]: every row is replaced, in
    place, by one copy per element of its list cell. *)
Definition explode_industries {V : Type}
  (df : DataFrame (string * list string) V) : DataFrame string V :=
  flat_map (fun r => map (fun i => set_industries i r)
                         (Str.pieces (organization_industries r))) df.

Definition explode_investors {I : Type}
  (df : DataFrame I (string * list string)) : DataFrame I string :=
  flat_map (fun r => map (fun v => set_investors v r)
                         (Str.pieces (investor_names r))) df.

(** ** Preprocessing *)

Definition df_industry (df : Table) : Table :=
  explode_industries (assign_industries Str.split df).

Definition df_investor (df : Table) : Table :=
  explode_investors (assign_investors Str.split (df_industry df)).

(** The second explode alone, on any table. *)
Definition expand_investors (t : Table) : Table :=
  explode_investors (assign_investors Str.split t).

(** Two rows agree on every column but the industries, or but the
    investors. *)
Definition same_but_industries (x r : Row string string) : Prop :=
  organization_name x = organization_name r
  /\ investor_names x = investor_names r
  /\ money_raised x = money_raised r
  /\ investor_count_computed x = investor_count_computed r.

Definition same_but_investors (x r : Row string string) : Prop :=
  organization_name x = organization_name r
  /\ organization_industries x = organization_industries r
  /\ money_raised x = money_raised r
  /\ investor_count_computed x = investor_count_computed r.

(** ** Grouping and aggregation *)

Section GroupBy.
Context {A K : Type} `{Key K}.

Fixpoint insert_key (k : K) (l : list K) : list K :=
  match l with
  | [] => [k]
  | h :: t =>
      if key_eqb k h then l
      else if key_leb k h then k :: l
      else h :: insert_key k t
  end.

(** Strictly below, in the label order. *)
Definition key_lt (a b : K) : Prop := key_leb a b = true /\ a <> b.

(** The distinct labels of a column, ascending. *)
Definition group_keys (key : A -> K) (rows : list A) : list K :=
  fold_right (fun r acc => insert_key (key r) acc) [] rows.

Definition group_rows (key : A -> K) (k : K) (rows : list A) : list A :=
  filter (fun r => key_eqb (key r) k) rows.

(** [rows.groupby(key)]: each label with its rows, in table order. *)
Definition groupby (key : A -> K) (rows : list A) : list (K * list A) :=
  map (fun k => (k, group_rows key k rows)) (group_keys key rows).

(** An aggregation applied to every group. *)
Definition agg {B : Type} (f : list A -> B) (g : list (K * list A))
  : list (K * B) :=
  map (fun kg => (fst kg, f (snd kg))) g.
End GroupBy.

Definition isin (x : string) (l : list string) : bool :=
  existsb (String.eqb x) l.

(** [count()] and [nunique()] of a text column of a group. *)
Definition count {A : Type} (col : A -> string) (g : list A) : nat :=
  List.length (map col g).

Definition nunique {A : Type} (col : A -> string) (g : list A) : nat :=
  List.length (nodup string_dec (map col g)).

Definition Qsum (l : list Q) : Q := fold_right Qplus 0%Q l.

(** [sum()] and [mean()] of the money of a group in which every amount is
    present (pandas leaves a missing amount out of both the sum and the
    number of rows the mean divides by), in exact arithmetic. *)
Definition sum_money {I V : Type} (g : DataFrame I V) : Q :=
  Qsum (map (@money_raised I V) g).

Definition mean_money {I V : Type} (g : DataFrame I V) : Q :=
  (sum_money g / inject_Z (Z.of_nat (List.length g)))%Q.

Definition Qnat (n : nat) : Q := inject_Z (Z.of_nat n).

(** ** [sort_values(ascending=False)] *)

Class SortValues : Type := {
  sort_values_desc : forall A : Type, (A -> Q) -> list A -> list A;
  sort_values_perm :
    forall (A : Type) (f : A -> Q) (l : list A),
      Permutation (sort_values_desc f l) l;
  sort_values_sorted :
    forall (A : Type) (f : A -> Q) (l : list A),
      StronglySorted (fun a b => (f b <= f a)%Q) (sort_values_desc f l)
}.

(** The sort as pandas runs it when the sort routine is stable: among equal
    values the earlier entry stays first. *)
Fixpoint insert_desc {A : Type} (f : A -> Q) (x : A) (l : list A) : list A :=
  match l with
  | [] => [x]
  | y :: t => if Qle_bool (f y) (f x) then x :: l else y :: insert_desc f x t
  end.

Definition stable_sort_desc (A : Type) (f : A -> Q) (l : list A) : list A :=
  fold_right (insert_desc f) [] l.

(** Ranked by value, descending, and by label, ascending, among equal
    values. *)
Definition by_value_then_label {B : Type} (f : string * B -> Q)
  (x y : string * B) : Prop :=
  (f y < f x)%Q
  \/ ((f x == f y)%Q /\ String.leb (fst x) (fst y) = true /\ fst x <> fst y).

(** [s.head(n)] and [s.iloc[n:]] *)
Definition head {A : Type} (n : nat) (l : list A) : list A := firstn n l.
Definition iloc_from {A : Type} (n : nat) (l : list A) : list A := skipn n l.

(** [s.index] *)
Definition index {K B : Type} (s : list (K * B)) : list K := map fst s.

(** Shorthands for the columns of an exploded table. *)
Definition org (r : Row string string) : string := organization_name r.
Definition industry (r : Row string string) : string := organization_industries r.
Definition investor (r : Row string string) : string := investor_names r.

Definition nonempty_industry (r : Row string string) : bool :=
  negb (String.eqb (industry r) "").

(** ** Task 1: number of deals by industry *)

Module Task1.
Section Task1.
Context {SV : SortValues}.

Definition deals_by_industry (df : Table) : list (string * nat) :=
  head 10
    (sort_values_desc (fun p => Qnat (snd p))
       (agg (count org)
          (groupby industry (filter nonempty_industry (df_industry df))))).
End Task1.
End Task1.

(** The place of a label in a list of labels, and the place of the first row
    of a table that carries a label (the length when there is none). *)
Fixpoint position (i : string) (l : list string) : nat :=
  match l with
  | [] => 0
  | x :: t => if String.eqb x i then 0 else S (position i t)
  end.

Definition first_seen (i : string) (rows : Table) : nat :=
  position i (map industry rows).

(** Ties broken in first-seen order: of two industries with the same count,
    the one ranked first is the one met first in the expanded table. *)
Definition ties_first_seen (out : list (string * nat)) (rows : Table) : Prop :=
  forall (a b : string) (c : nat),
    In (a, c) out -> In (b, c) out ->
    position a (index out) < position b (index out) ->
    first_seen a rows < first_seen b rows.

(** ** Task 2: money invested by industry *)

Module Task2.
Section Task2.
Context {SV : SortValues}.

Definition funding_by_industry (df : Table) : list (string * Q) :=
  sort_values_desc snd (agg sum_money (groupby industry (df_industry df))).

Definition TOP_N : nat := 80.

Definition top_industries (df : Table) : list (string * Q) :=
  head TOP_N (funding_by_industry df).

Definition other_industries (df : Table) : list (string * Q) :=
  iloc_from TOP_N (funding_by_industry df).

Definition other_row (df : Table) : list (string * Q) :=
  [("Other", Qsum (map snd (other_industries df)))].

Definition funding_treemap_df (df : Table) : list (string * Q) :=
  top_industries df ++ other_row df.
End Task2.
End Task2.

(** ** Task 3: industry-wise deals of the top 5 investors *)

Module Task3.

Definition normalize_investors (s : string) : string * list string :=
  Str.split (Str.replace_cell "Not Mentioned" "" s).

Definition named_investor (r : Row string string) : bool :=
  negb (String.eqb (Str.strip (investor r)) "").

Definition df_exp (df : Table) : Table :=
  filter named_investor
    (explode_investors
       (explode_industries
          (assign_investors normalize_investors
             (assign_industries Str.split df)))).

Definition TOP_INVESTORS : nat := 5.
Definition TOP_INDUSTRIES : nat := 10.

(** The entries of a deal as they reach [df_exp]: every piece of its
    industries, and the pieces of its investors that carry a name. *)
Definition listed_industries (r : Row string string) : list string :=
  Str.pieces (Str.split (organization_industries r)).

Definition named (v : string) : bool :=
  negb (String.eqb (Str.strip v) "").

Definition listed_investors (r : Row string string) : list string :=
  filter named (Str.pieces (normalize_investors (investor_names r))).

Section Task3.
Context {SV : SortValues}.

(** The labels of the [n] largest groups by number of distinct
    organizations. *)
Definition top_by_orgs {A : Type} (key : A -> string) (o : A -> string)
  (n : nat) (rows : list A) : list string :=
  index (head n (sort_values_desc (fun p => Qnat (snd p))
                   (agg (nunique o) (groupby key rows)))).

Definition top_investors (df : Table) : list string :=
  top_by_orgs investor org TOP_INVESTORS (df_exp df).

Definition df_top_inv (df : Table) : Table :=
  filter (fun r => isin (investor r) (top_investors df)) (df_exp df).

Definition top_industries (df : Table) : list string :=
  top_by_orgs industry org TOP_INDUSTRIES (df_exp df).

Definition df_top (df : Table) : Table :=
  filter (fun r => isin (industry r) (top_industries df)) (df_top_inv df).

Definition inv_ind_deals (df : Table) : list ((string * string) * nat) :=
  agg (nunique org) (groupby (fun r => (investor r, industry r)) (df_top df)).
End Task3.
End Task3.

(** ** Task 4: money invested by the top 5 investors *)

(** A row of [df_money]: a row of [df_exp] and its [money_per_investor]. *)
Record MoneyRow : Type := mkMoneyRow {
  base : Row string string;
  money_per_investor : fval
}.

Module Task4.

(** [investor_count_computed.replace(0, 1)] on one cell. *)
Definition replace_zero (d : Z) : Z := if (d =? 0)%Z then 1%Z else d.

Definition per_investor (r : Row string string) : fval :=
  fdiv (money_raised r) (replace_zero (investor_count_computed r)).

(** The quotient as a rational, for a divisor that is not zero. *)
Definition share (r : Row string string) : Q :=
  (money_raised r / inject_Z (replace_zero (investor_count_computed r)))%Q.

(** [df_exp.copy()] with the new column. *)
Definition with_money_per_investor (rows : Table) : list MoneyRow :=
  map (fun r => mkMoneyRow r (per_investor r)) rows.

Definition restrict (investors industries : list string)
  (rows : list MoneyRow) : list MoneyRow :=
  filter (fun m => isin (investor (base m)) investors
                   && isin (industry (base m)) industries) rows.

Definition pair_key_of (m : MoneyRow) : string * string :=
  (investor (base m), industry (base m)).

(** [groupby([investor, industry])['money_per_investor'].sum()] *)
Definition sum_per_pair (rows : list MoneyRow) : list ((string * string) * fval) :=
  agg (fun g => fsum (map money_per_investor g)) (groupby pair_key_of rows).

(** Reading the grouped output: the sum of the bars whose investor passes
    [sv] and whose industry passes [si]. *)
Definition total_where (sv si : string -> bool)
  (s : list ((string * string) * fval)) : fval :=
  fsum (map snd (filter (fun g => sv (fst (fst g)) && si (snd (fst g))) s)).

(** The bar of investor [v] under industry [i] (zero when there is none). *)
Definition pair_value (v i : string) (s : list ((string * string) * fval))
  : fval :=
  total_where (String.eqb v) (String.eqb i) s.

Section Task4.
Context {SV : SortValues}.

Definition df_money (df : Table) : list MoneyRow :=
  restrict (Task3.top_investors df) (Task3.top_industries df)
    (with_money_per_investor (Task3.df_exp df)).

Definition inv_ind_money (df : Table) : list ((string * string) * fval) :=
  sum_per_pair (df_money df).
End Task4.
End Task4.

(** The quotients of the rows of a money table, as rationals. *)
Definition shares (rows : list MoneyRow) : list Q :=
  map (fun m => Task4.share (base m)) rows.

(** The row a deal contributes for one of its industries and one of its
    investors. *)
Definition deal_row (r : Row string string) (p : string * string)
  : Row string string :=
  mkRow (organization_name r) (fst p) (snd p)
        (money_raised r) (investor_count_computed r).


(** ** Task 5: the same without Y Combinator *)

Module Task5.

Definition EXCLUDED_INVESTORS : list string := ["Y Combinator"].

Definition not_excluded (m : MoneyRow) : bool :=
  negb (isin (investor (base m)) EXCLUDED_INVESTORS).

Section Task5.
Context {SV : SortValues}.

(** [df_money_filtered] as first assigned: [df_money] without the
    excluded investors. *)
Definition df_money_without_excluded (df : Table) : list MoneyRow :=
  filter not_excluded (Task4.df_money df).

Definition top_investors_no_yc (df : Table) : list string :=
  Task3.top_by_orgs (fun m => investor (base m)) (fun m => org (base m))
    Task3.TOP_INVESTORS (df_money_without_excluded df).

(** [df_money_filtered] as reassigned. *)
Definition df_money_filtered (df : Table) : list MoneyRow :=
  filter (fun m => isin (investor (base m)) (top_investors_no_yc df))
    (df_money_without_excluded df).

Definition inv_ind_money_no_yc (df : Table) : list ((string * string) * fval) :=
  Task4.sum_per_pair (df_money_filtered df).

(** The ranking as the specification words it: the excluded investor is
    removed from the whole expanded table and the five largest of all
    remaining investors are taken. *)
Definition top_investors_no_yc_over_all_investors (df : Table) : list string :=
  Task3.top_by_orgs (fun m => investor (base m)) (fun m => org (base m))
    Task3.TOP_INVESTORS
    (filter not_excluded (Task4.with_money_per_investor (Task3.df_exp df))).
End Task5.
End Task5.

(** ** Task 6: average funding per deal by industry *)

Module Task6.

Definition TOP_INDUSTRIES : nat := 10.

Section Task6.
Context {SV : SortValues}.

Definition top_industries (df : Table) : list string :=
  Task3.top_by_orgs industry org TOP_INDUSTRIES
    (filter nonempty_industry (df_industry df)).

Definition df_top_ind (df : Table) : Table :=
  filter (fun r => isin (industry r) (top_industries df)) (df_industry df).

Definition avg_funding_industry (df : Table) : list (string * Q) :=
  sort_values_desc snd (agg mean_money (groupby industry (df_top_ind df))).
End Task6.
End Task6.

(** ** Collapsing an exploded table *)

(** Modelled from the spec: the collapse of the round-trip property, which the
    script does not contain.  The exploded table is re-grouped on
    [organization_name] and the labels of each group are re-joined with the
    delimiter of the split. *)
Definition collapse (exploded : Table) : list (string * string) :=
  agg (fun g => Str.join (map industry g)) (groupby org exploded).

(** Two multi-valued strings list the same labels, in any order and any
    number of times. *)
Definition same_labels (s1 s2 : string) : Prop :=
  forall x, In x (Str.pieces (Str.split s1)) <-> In x (Str.pieces (Str.split s2)).

(** [s[k]] for a series with unique labels *)
Fixpoint lookup {B : Type} (k : string) (s : list (string * B)) : option B :=
  match s with
  | [] => None
  | (k', b) :: t => if String.eqb k k' then Some b else lookup k t
  end.

(** ** Small tables for the examples *)

Definition deal (o i v : string) (m : Q) (c : Z) : Row string string :=
  mkRow o i v m c.

(** Six deals in one industry; the investors back 6, 5, 4, 3, 2 and 1
    organizations. *)
Definition six_deals : Table :=
  [ deal "O1" "AI"
      "Y Combinator, Techstars, Plug and Play, Pioneer Fund, Team Ignite, Antler"
      600%Q 6%Z;
    deal "O2" "AI"
      "Y Combinator, Techstars, Plug and Play, Pioneer Fund, Team Ignite"
      500%Q 5%Z;
    deal "O3" "AI" "Y Combinator, Techstars, Plug and Play, Pioneer Fund"
      400%Q 4%Z;
    deal "O4" "AI" "Y Combinator, Techstars, Plug and Play" 300%Q 3%Z;
    deal "O5" "AI" "Y Combinator, Techstars" 200%Q 2%Z;
    deal "O6" "AI" "Y Combinator" 100%Q 1%Z ].

(** Two deals, the first with no industry listed. *)
Definition unlisted_industry_deals : Table :=
  [ deal "A" "" "X" 100%Q 1%Z;
    deal "B" "AI" "X" 50%Q 1%Z ].

(** One deal whose investor list ends with the marker. *)
Definition marker_in_list_deals : Table :=
  [ deal "A" "AI" "X, Not Mentioned" 100%Q 2%Z ].

(** A deal with no investor counted. *)
Definition uncounted_deals : Table :=
  [ deal "A" "AI" "X" 100%Q 0%Z ].

(** The two-deal table of the specification's scenario. *)
Definition scenario_deal_A : Row string string :=
  deal "A" "AI, Software" "X" 100%Q 1%Z.

Definition scenario_deal_B : Row string string :=
  deal "B" "AI" "X, Y" 200%Q 2%Z.

Definition scenario : Table := [scenario_deal_A; scenario_deal_B].

(** Two funding rounds of one organization. *)
Definition two_rounds : Table :=
  [ deal "A" "AI" "X" 100%Q 1%Z;
    deal "A" "Software" "Y" 50%Q 1%Z ].

(** The same two deals in the two possible orders. *)
Definition software_then_ai : Table :=
  [ deal "A" "Software" "X" 100%Q 1%Z;
    deal "B" "AI" "Y" 50%Q 1%Z ].

Definition ai_then_software : Table :=
  [ deal "B" "AI" "Y" 50%Q 1%Z;
    deal "A" "Software" "X" 100%Q 1%Z ].

(** ** Further notions used by the properties of the pipeline *)

(** [', ' in s] *)
Fixpoint has_sep (s : string) : bool :=
  match s with
  | EmptyString => false
  | String c s' =>
      match s' with
      | String c' _ => (Ascii.eqb c "," && Ascii.eqb c' " ") || has_sep s'
      | EmptyString => false
      end
  end.

(** Every character of [s] is whitespace ([s] may be empty). *)
Definition all_space (s : string) : Prop :=
  forall c, In c (list_ascii_of_string s) -> Str.isspace c = true.

(** The number of distinct organizations in the rows that carry the label
    [k], and the number of such rows. *)
Definition orgs_under {A : Type} (key o : A -> string) (rows : list A)
  (k : string) : nat :=
  nunique o (group_rows key k rows).

Definition rows_under {A : Type} (key : A -> string) (rows : list A)
  (k : string) : nat :=
  List.length (group_rows key k rows).

(** The order of the groups of a two-column [groupby]: by investor, then by
    industry, both ascending and without repetition. *)
Definition pair_lt (p q : string * string) : Prop :=
  (String.leb (fst p) (fst q) = true /\ fst p <> fst q)
  \/ (fst p = fst q /\ String.leb (snd p) (snd q) = true /\ snd p <> snd q).

(** The rows of the expanded table of investor [v] under industry [i]. *)
Definition rows_of_pair (v i : string) (rows : Table) : Table :=
  filter (fun r => String.eqb (investor r) v && String.eqb (industry r) i) rows.

(** A table in which one industry is named like the bucket of the treemap. *)
Definition other_named_deals : Table :=
  [ deal "A" "Other, AI" "X" 100%Q 1%Z;
    deal "B" "AI" "Y" 50%Q 1%Z ].

(** ** Loading *)

(** [fillna('')] on one cell of a text column. *)
Definition fillna (c : option string) : string :=
  match c with
  | Some s => s
  | None => EmptyString
  end.

(** [load_data], from the table the spreadsheet reader returns: a cell of a
    text column may be missing there. *)
Definition load_data (raw : DataFrame (option string) (option string))
  : Table :=
  assign_investors fillna (assign_industries fillna raw).

(** A table with one deal that counts no investor and money in every deal. *)
Definition counted_deals : Table :=
  [ deal "A" "AI" "X" 100%Q 0%Z;
    deal "B" "AI" "X, Y" 50%Q 2%Z ].


(** ** One deal in the money tables of analyses #4 and #5 *)






Section OneDeal.
Context {SV : SortValues}.


End OneDeal.

(** Two deals of organization B around one deal of organization A. *)
Definition rounds_around : Table :=
  [ deal "B" "AI" "X" 10%Q 1%Z;
    deal "A" "AI, Software" "X" 100%Q 1%Z;
    deal "B" "Health Care" "Y" 20%Q 1%Z ].

(** * Properties *)

(** ** Splitting and joining *)

Lemma join_cons_char (c : ascii) (h : string) (t : list string) :
  Str.join (String c h :: t) = String c (Str.join (h :: t)).
Proof. destruct t; reflexivity. Qed.

Lemma split_cons_cons (c c' : ascii) (rest : string) :
  Str.split (String c (String c' rest)) =
  if (Ascii.eqb c "," && Ascii.eqb c' " ")%bool
  then let (h, t) := Str.split rest in (EmptyString, h :: t)
  else let (h, t) := Str.split (String c' rest) in (String c h, t).
Proof. reflexivity. Qed.

Lemma split_join_step (s : string) :
  Str.join (Str.pieces (Str.split s)) = s
  /\ forall c, Str.join (Str.pieces (Str.split (String c s))) = String c s.
Proof.
  induction s as [|c' rest [IHrest IHcons]].
  - split; [reflexivity | intro c; reflexivity].
  - split; [apply IHcons | intro c].
    specialize (IHcons c').
    rewrite split_cons_cons.
    destruct (Ascii.eqb c "," && Ascii.eqb c' " ")%bool eqn:Hsep.
    + apply andb_true_iff in Hsep as [Hc Hc'].
      apply Ascii.eqb_eq in Hc, Hc'. subst c c'.
      destruct (Str.split rest) as [h t] eqn:Hrest.
      unfold Str.pieces in *. cbn [fst snd] in *.
      change (Str.join (EmptyString :: h :: t))
        with (String "," (String " " (Str.join (h :: t)))).
      now rewrite IHrest.
    + destruct (Str.split (String c' rest)) as [h t] eqn:Hrest.
      unfold Str.pieces in *. cbn [fst snd] in *.
      now rewrite join_cons_char, IHcons.
Qed.

(** Joining the pieces of a split gives the string back. *)
Lemma split_join (s : string) : Str.join (Str.pieces (Str.split s)) = s.
Proof. apply split_join_step. Qed.

(** ** The label orders *)

Lemma string_leb_trans (a b c : string) :
  String.leb a b = true -> String.leb b c = true -> String.leb a c = true.
Proof.
  unfold String.leb. revert b c.
  induction a as [|x a IH]; intros [|y b] [|z c]; cbn; try congruence.
  unfold Ascii.compare.
  destruct (N.compare_spec (N_of_ascii x) (N_of_ascii y)) as [Hxy|Hxy|Hxy];
    destruct (N.compare_spec (N_of_ascii y) (N_of_ascii z)) as [Hyz|Hyz|Hyz];
    destruct (N.compare_spec (N_of_ascii x) (N_of_ascii z)) as [Hxz|Hxz|Hxz];
    try congruence; try lia; intros; auto.
  eapply IH; eassumption.
Qed.

#[export] Instance string_key_laws : KeyLaws string.
Proof.
  split.
  - apply String.eqb_eq.
  - apply String.leb_total.
  - apply String.leb_antisym.
  - apply string_leb_trans.
Qed.

#[export] Instance pair_key_laws {A B : Type} `{KeyLaws A} `{KeyLaws B} :
  KeyLaws (A * B).
Proof.
  split.
  - intros [a1 b1] [a2 b2]. cbn. rewrite andb_true_iff, !key_eqb_eq.
    split; [intros [-> ->]; reflexivity | intros [= -> ->]; auto].
  - intros [a1 b1] [a2 b2]. cbn.
    destruct (key_eqb a1 a2) eqn:E12.
    + apply key_eqb_eq in E12. subst a2.
      replace (key_eqb a1 a1) with true
        by (symmetry; now apply key_eqb_eq).
      apply key_leb_total.
    + destruct (key_eqb a2 a1) eqn:E21.
      * apply key_eqb_eq in E21. subst a2.
        assert (key_eqb a1 a1 = true) by now apply key_eqb_eq.
        congruence.
      * apply key_leb_total.
  - intros [a1 b1] [a2 b2]. cbn.
    destruct (key_eqb a1 a2) eqn:E12.
    + apply key_eqb_eq in E12. subst a2.
      replace (key_eqb a1 a1) with true
        by (symmetry; now apply key_eqb_eq).
      intros Hl Hr. f_equal. now apply key_leb_antisym.
    + intros Hl Hr.
      destruct (key_eqb a2 a1) eqn:E21.
      * apply key_eqb_eq in E21. subst a2.
        assert (key_eqb a1 a1 = true) by now apply key_eqb_eq.
        congruence.
      * assert (a1 = a2) by now apply key_leb_antisym.
        subst a2. assert (key_eqb a1 a1 = true) by now apply key_eqb_eq.
        congruence.
  - intros [a1 b1] [a2 b2] [a3 b3]. cbn.
    destruct (key_eqb a1 a2) eqn:E12.
    + apply key_eqb_eq in E12. subst a2.
      destruct (key_eqb a1 a3) eqn:E13; [apply key_leb_trans | auto].
    + destruct (key_eqb a2 a3) eqn:E23.
      * apply key_eqb_eq in E23. subst a3. rewrite E12. auto.
      * intros Hl Hr.
        destruct (key_eqb a1 a3) eqn:E13.
        -- apply key_eqb_eq in E13. subst a3.
           assert (a1 = a2) by now apply key_leb_antisym.
           subst a2. assert (key_eqb a1 a1 = true) by now apply key_eqb_eq.
           congruence.
        -- eapply key_leb_trans; eassumption.
Qed.

(** ** Grouping *)

Section GroupByFacts.
Context {A K : Type} `{KeyLaws K}.

Lemma key_eqb_refl (k : K) : key_eqb k k = true.
Proof. now apply key_eqb_eq. Qed.

Lemma key_eqb_neq (a b : K) : key_eqb a b = false <-> a <> b.
Proof.
  split.
  - intros E ->. rewrite key_eqb_refl in E. discriminate.
  - intros N. destruct (key_eqb a b) eqn:E; [|reflexivity].
    apply key_eqb_eq in E. contradiction.
Qed.

Lemma key_lt_trans (a b c : K) : key_lt a b -> key_lt b c -> key_lt a c.
Proof.
  intros [Lab Nab] [Lbc Nbc]. split.
  - eapply key_leb_trans; eassumption.
  - intros ->. apply Nab. now apply key_leb_antisym.
Qed.

Lemma insert_key_In (k x : K) (l : list K) :
  In x (insert_key k l) <-> x = k \/ In x l.
Proof.
  induction l as [|h t IH]; cbn.
  - intuition.
  - destruct (key_eqb k h) eqn:E.
    + apply key_eqb_eq in E. subst h. cbn. intuition.
    + destruct (key_leb k h); cbn; [intuition|].
      rewrite IH. intuition.
Qed.

Lemma insert_key_sorted (k : K) (l : list K) :
  StronglySorted key_lt l -> StronglySorted key_lt (insert_key k l).
Proof.
  induction 1 as [|h t Hs IH Hh]; cbn.
  - repeat constructor.
  - destruct (key_eqb k h) eqn:E; [now constructor|].
    apply key_eqb_neq in E.
    destruct (key_leb k h) eqn:L.
    + assert (Hkh : key_lt k h) by (split; assumption).
      constructor; [now constructor|].
      constructor; [assumption|].
      eapply Forall_impl; [|exact Hh].
      intros y Hy. eapply key_lt_trans; eassumption.
    + constructor; [assumption|].
      apply Forall_forall. intros y Hy.
      apply insert_key_In in Hy as [->|Hy].
      * split; [|congruence].
        destruct (key_leb_total k h); congruence.
      * rewrite Forall_forall in Hh. now apply Hh.
Qed.

Lemma group_keys_In (key : A -> K) (rows : list A) (k : K) :
  In k (group_keys key rows) <-> exists r, In r rows /\ key r = k.
Proof.
  induction rows as [|r rows IH]; cbn.
  - split; [contradiction | intros (r & [] & _)].
  - rewrite insert_key_In, IH. split.
    + intros [->|(r' & Hr' & E)]; eauto.
    + intros (r' & [->|Hr'] & E); eauto.
Qed.

Lemma group_keys_sorted (key : A -> K) (rows : list A) :
  StronglySorted key_lt (group_keys key rows).
Proof.
  induction rows; cbn; [constructor | now apply insert_key_sorted].
Qed.

Lemma sorted_NoDup (l : list K) : StronglySorted key_lt l -> NoDup l.
Proof.
  induction 1 as [|h t Hs IH Hh]; constructor; [|assumption].
  intros Hin. rewrite Forall_forall in Hh.
  destruct (Hh h Hin) as [_ N]. now apply N.
Qed.

Lemma group_keys_NoDup (key : A -> K) (rows : list A) :
  NoDup (group_keys key rows).
Proof. apply sorted_NoDup, group_keys_sorted. Qed.

(** A strictly ascending list is determined by its elements. *)
Lemma sorted_unique (l1 l2 : list K) :
  StronglySorted key_lt l1 -> StronglySorted key_lt l2 ->
  (forall x, In x l1 <-> In x l2) -> l1 = l2.
Proof.
  intros S1. revert l2.
  induction S1 as [|h1 t1 S1 IH Hh1]; intros l2 S2 Hsame.
  - destruct l2 as [|h2 t2]; [reflexivity|].
    destruct (proj2 (Hsame h2)). now left.
  - destruct S2 as [|h2 t2 S2 Hh2].
    + destruct (proj1 (Hsame h1)). now left.
    + rewrite Forall_forall in Hh1, Hh2.
      assert (Hhead : h1 = h2).
      { destruct (proj1 (Hsame h1) (or_introl eq_refl)) as [E|In1];
          [now symmetry|].
        destruct (proj2 (Hsame h2) (or_introl eq_refl)) as [E|In2];
          [assumption|].
        destruct (Hh1 _ In2) as [L12 _], (Hh2 _ In1) as [L21 _].
        now apply key_leb_antisym. }
      subst h2. f_equal. apply IH; [assumption|].
      intros x. split; intros Hx.
      * destruct (proj1 (Hsame x) (or_intror Hx)) as [E|Hx']; [|assumption].
        subst x. destruct (Hh1 _ Hx) as [_ N]. now destruct N.
      * destruct (proj2 (Hsame x) (or_intror Hx)) as [E|Hx']; [|assumption].
        subst x. destruct (Hh2 _ Hx) as [_ N]. now destruct N.
Qed.

(** The labels do not depend on the order of the rows. *)
Lemma group_keys_perm (key : A -> K) (rows rows' : list A) :
  Permutation rows rows' -> group_keys key rows = group_keys key rows'.
Proof.
  intros P. apply sorted_unique; try apply group_keys_sorted.
  intros k. rewrite !group_keys_In.
  split; intros (r & Hr & E); exists r; split; try assumption.
  - eapply Permutation_in; eassumption.
  - eapply Permutation_in; [apply Permutation_sym|]; eassumption.
Qed.

Lemma index_agg_groupby {B : Type} (f : list A -> B) (key : A -> K)
  (rows : list A) :
  index (agg f (groupby key rows)) = group_keys key rows.
Proof.
  unfold index, agg, groupby. rewrite !map_map. cbn. apply map_id.
Qed.
End GroupByFacts.

(** ** Sorting *)

Section StableSort.
Context {A : Type} (f : A -> Q).

Let desc (a b : A) : Prop := (f b <= f a)%Q.

Lemma insert_desc_perm (x : A) (l : list A) :
  Permutation (insert_desc f x l) (x :: l).
Proof.
  induction l as [|y t IH]; cbn; [reflexivity|].
  destruct (Qle_bool (f y) (f x)); [reflexivity|].
  rewrite IH. apply perm_swap.
Qed.

Lemma insert_desc_sorted (x : A) (l : list A) :
  StronglySorted desc l -> StronglySorted desc (insert_desc f x l).
Proof.
  induction 1 as [|y t Hs IH Hy]; cbn.
  - repeat constructor.
  - destruct (Qle_bool (f y) (f x)) eqn:E.
    + apply Qle_bool_iff in E.
      constructor; [now constructor|].
      constructor; [exact E|].
      eapply Forall_impl; [|exact Hy].
      intros z Hz. unfold desc in *. eapply Qle_trans; eassumption.
    + constructor; [assumption|].
      apply Forall_forall. intros z Hz.
      apply (Permutation_in _ (insert_desc_perm x t)) in Hz.
      destruct Hz as [<-|Hz].
      * unfold desc. apply Qlt_le_weak, Qnot_le_lt.
        intros L. apply Qle_bool_iff in L. congruence.
      * rewrite Forall_forall in Hy. now apply Hy.
Qed.

Lemma stable_sort_desc_perm (l : list A) :
  Permutation (stable_sort_desc f l) l.
Proof.
  induction l as [|x l IH]; cbn; [reflexivity|].
  rewrite insert_desc_perm. now constructor.
Qed.

Lemma stable_sort_desc_sorted (l : list A) :
  StronglySorted desc (stable_sort_desc f l).
Proof.
  induction l; cbn; [constructor | now apply insert_desc_sorted].
Qed.
End StableSort.

(** The stable sort is one way to run [sort_values]. *)
#[export] Instance stable_sort_values : SortValues := {
  sort_values_desc := stable_sort_desc;
  sort_values_perm := fun A f l => stable_sort_desc_perm f l;
  sort_values_sorted := fun A f l => stable_sort_desc_sorted f l
}.

Section SortFacts.
Context {SV : SortValues}.

Lemma sort_values_In {A : Type} (f : A -> Q) (l : list A) (x : A) :
  In x (sort_values_desc f l) <-> In x l.
Proof.
  split; apply Permutation_in;
    [|apply Permutation_sym]; apply sort_values_perm.
Qed.

Lemma head_In {A : Type} (n : nat) (l : list A) (x : A) :
  In x (head n l) -> In x l.
Proof. unfold head. revert l. induction n; intros [|y l]; cbn; intuition. Qed.

(** Every label of a top-[n] ranking is the label of some row. *)
Lemma top_by_orgs_In {A : Type} (key : A -> string) (o : A -> string)
  (n : nat) (rows : list A) (v : string) :
  In v (Task3.top_by_orgs key o n rows) ->
  exists r, In r rows /\ key r = v.
Proof.
  unfold Task3.top_by_orgs, index. rewrite in_map_iff.
  intros ([k c] & <- & Hin). cbn.
  apply head_In, sort_values_In in Hin.
  apply (in_map fst) in Hin.
  change (map fst ?s) with (index s) in Hin.
  rewrite index_agg_groupby in Hin.
  now apply group_keys_In in Hin.
Qed.
End SortFacts.

(** ** Membership tests and the exploded tables *)

Lemma isin_In (x : string) (l : list string) : isin x l = true <-> In x l.
Proof.
  unfold isin. rewrite existsb_exists. split.
  - intros (y & Hy & E). apply String.eqb_eq in E. now subst.
  - intros Hx. exists x. split; [assumption | apply String.eqb_refl].
Qed.

Lemma isin_not_In (x : string) (l : list string) :
  isin x l = false <-> ~ In x l.
Proof.
  rewrite <- isin_In. destruct (isin x l); split; congruence.
Qed.

(** ** Task 5: the ranking without the excluded investor *)

Section Task5Facts.
Context {SV : SortValues}.

Lemma df_money_In (df : Table) (m : MoneyRow) :
  In m (Task4.df_money df) ->
  In (investor (base m)) (Task3.top_investors df)
  /\ In (industry (base m)) (Task3.top_industries df)
  /\ In (base m) (Task3.df_exp df)
  /\ money_per_investor m = Task4.per_investor (base m).
Proof.
  unfold Task4.df_money, Task4.restrict, Task4.with_money_per_investor.
  rewrite filter_In, in_map_iff, andb_true_iff, !isin_In.
  intros ((r & <- & Hr) & Hi & Hn). cbn. auto.
Qed.

Lemma df_money_without_excluded_In (df : Table) (m : MoneyRow) :
  In m (Task5.df_money_without_excluded df) ->
  investor (base m) <> "Y Combinator"
  /\ In (investor (base m)) (Task3.top_investors df).
Proof.
  unfold Task5.df_money_without_excluded. rewrite filter_In.
  intros [Hm Hex].
  apply df_money_In in Hm as (Htop & _).
  split; [|assumption].
  unfold Task5.not_excluded, Task5.EXCLUDED_INVESTORS in Hex.
  apply negb_true_iff, isin_not_In in Hex.
  intros E. apply Hex. now left.
Qed.

(** Every investor of the ranking recomputed in analysis #5 differs from
    "Y Combinator" and belongs to the top 5 of analysis #3: the ranking is
    taken over the table of analysis #4, which holds the rows of those five
    investors only. *)
Lemma top_investors_no_yc_within_top_investors (df : Table) :
  Forall (fun v => v <> "Y Combinator" /\ In v (Task3.top_investors df))
         (Task5.top_investors_no_yc df).
Proof.
  apply Forall_forall. intros v Hv.
  unfold Task5.top_investors_no_yc in Hv.
  apply top_by_orgs_In in Hv as (m & Hm & Ev).
  rewrite <- Ev.
  now apply df_money_without_excluded_In.
Qed.
End Task5Facts.

Example top_investors_no_yc_six_deals :
  Task5.top_investors_no_yc (SV := stable_sort_values) six_deals
  = ["Techstars"; "Plug and Play"; "Pioneer Fund"; "Team Ignite"].
Proof. vm_compute. reflexivity. Qed.

(** ** Empty industry labels in the rankings *)

Section RankingFacts.
Context {SV : SortValues}.

(** With no more than [n] groups the ranking keeps every label. *)
Lemma top_by_orgs_all {A : Type} (key : A -> string) (o : A -> string)
  (n : nat) (rows : list A) (r : A) :
  List.length (group_keys key rows) <= n ->
  In r rows -> In (key r) (Task3.top_by_orgs key o n rows).
Proof.
  intros Hlen Hr. unfold Task3.top_by_orgs, head.
  rewrite firstn_all2.
  - unfold index.
    rewrite (Permutation_map fst (sort_values_perm _ _)).
    change (map fst ?s) with (index s).
    rewrite index_agg_groupby. apply group_keys_In. eauto.
  - rewrite (Permutation_length (sort_values_perm _ _)).
    unfold agg, groupby. now rewrite !length_map.
Qed.

Lemma deals_by_industry_In (df : Table) (i : string) (c : nat) :
  In (i, c) (Task1.deals_by_industry df) ->
  exists r, In r (df_industry df) /\ nonempty_industry r = true
            /\ industry r = i.
Proof.
  unfold Task1.deals_by_industry. intros Hin.
  apply head_In, sort_values_In in Hin.
  apply (in_map fst) in Hin.
  change (map fst ?s) with (index s) in Hin.
  rewrite index_agg_groupby in Hin.
  apply group_keys_In in Hin as (r & Hr & E).
  apply filter_In in Hr as [Hr Hne]. eauto.
Qed.

(** The rankings of analyses #1 and #6 never hold the empty label. *)
Lemma deals_by_industry_no_empty_label (df : Table) :
  ~ In "" (index (Task1.deals_by_industry df)).
Proof.
  unfold index. rewrite in_map_iff. intros ([i c] & E & Hin).
  cbn in E. subst i.
  apply deals_by_industry_In in Hin as (r & _ & Hne & E).
  unfold nonempty_industry in Hne. rewrite E in Hne. discriminate.
Qed.

Lemma task6_top_industries_no_empty_label (df : Table) :
  ~ In "" (Task6.top_industries df).
Proof.
  intros Hin. apply top_by_orgs_In in Hin as (r & Hr & E).
  apply filter_In in Hr as [_ Hne].
  unfold nonempty_industry in Hne. rewrite E in Hne. discriminate.
Qed.

(** C2 at a table with a deal that lists no industry: the ranking of
    analyses #3 to #5 keeps the empty label, and the grouped output of
    analysis #3 has a group under it, whatever the sort routine. *)
Theorem task3_top_industries_keeps_empty_label :
  In "" (Task3.top_industries unlisted_industry_deals)
  /\ In ("X", "") (index (Task3.inv_ind_deals unlisted_industry_deals)).
Proof.
  set (r := deal "A" "" "X" 100%Q 1%Z).
  assert (Hr : In r (Task3.df_exp unlisted_industry_deals))
    by (vm_compute; auto).
  assert (Hind : In "" (Task3.top_industries unlisted_industry_deals)).
  { apply (top_by_orgs_all industry org (n := Task3.TOP_INDUSTRIES) _ r);
      [vm_compute; lia | exact Hr]. }
  assert (Hinv : In "X" (Task3.top_investors unlisted_industry_deals)).
  { apply (top_by_orgs_all investor org (n := Task3.TOP_INVESTORS) _ r);
      [vm_compute; lia | exact Hr]. }
  split; [exact Hind|].
  unfold Task3.inv_ind_deals. rewrite index_agg_groupby.
  apply group_keys_In. exists r. split; [|reflexivity].
  unfold Task3.df_top, Task3.df_top_inv.
  rewrite !filter_In, !isin_In. auto.
Qed.
End RankingFacts.

(** ** The expanded table of analyses #3 to #5 *)

Lemma filter_flat_map {A B : Type} (p : B -> bool) (f : A -> list B)
  (l : list A) :
  filter p (flat_map f l) = flat_map (fun x => filter p (f x)) l.
Proof.
  induction l as [|x l IH]; cbn; [reflexivity|].
  now rewrite filter_app, IH.
Qed.

Lemma filter_map_comm {A B : Type} (p : B -> bool) (g : A -> B)
  (l : list A) :
  filter p (map g l) = map g (filter (fun x => p (g x)) l).
Proof.
  induction l as [|x l IH]; cbn; [reflexivity|].
  destruct (p (g x)); cbn; now rewrite IH.
Qed.

Lemma flat_map_map {A B C : Type} (g : A -> B) (f : B -> list C)
  (l : list A) :
  flat_map f (map g l) = flat_map (fun x => f (g x)) l.
Proof.
  induction l as [|x l IH]; cbn; [reflexivity|]. now rewrite IH.
Qed.

Lemma df_exp_app (a b : Table) :
  Task3.df_exp (a ++ b) = Task3.df_exp a ++ Task3.df_exp b.
Proof.
  unfold Task3.df_exp, explode_investors, explode_industries,
    assign_investors, assign_industries.
  now rewrite !map_app, !flat_map_app, filter_app.
Qed.

(** The rows one deal contributes: one per listed industry and named
    investor, all with the deal's other columns. *)
Lemma df_exp_single (r : Row string string) :
  Task3.df_exp [r] =
  flat_map (fun i => map (fun v => mkRow (organization_name r) i v
                                         (money_raised r)
                                         (investor_count_computed r))
                         (Task3.listed_investors r))
           (Task3.listed_industries r).
Proof.
  unfold Task3.df_exp, explode_investors, explode_industries,
    assign_investors, assign_industries,
    Task3.listed_investors, Task3.listed_industries.
  cbn [map flat_map]. rewrite app_nil_r.
  rewrite flat_map_map, filter_flat_map.
  apply flat_map_ext. intros i. cbv beta.
  rewrite filter_map_comm. reflexivity.
Qed.

Lemma df_exp_cons (r : Row string string) (df : Table) :
  Task3.df_exp (r :: df) = Task3.df_exp [r] ++ Task3.df_exp df.
Proof. apply (df_exp_app [r] df). Qed.

Lemma df_exp_named (df : Table) (r : Row string string) :
  In r (Task3.df_exp df) -> Str.strip (investor r) <> "".
Proof.
  unfold Task3.df_exp. rewrite filter_In. intros [_ Hn].
  unfold Task3.named_investor in Hn.
  apply negb_true_iff, String.eqb_neq in Hn. exact Hn.
Qed.

Lemma flat_map_nil {A B : Type} (l : list A) :
  flat_map (fun _ : A => @nil B) l = [].
Proof. induction l; cbn; auto. Qed.

(** A deal whose investor cell is the marker, as a whole, contributes no
    row. *)
Lemma df_exp_not_mentioned (o i : string) (m : Q) (c : Z) :
  Task3.df_exp [deal o i "Not Mentioned" m c] = [].
Proof.
  rewrite df_exp_single.
  unfold Task3.listed_investors, deal. cbn [investor_names].
  change (filter Task3.named _) with (@nil string).
  cbn [map]. apply flat_map_nil.
Qed.

Lemma sum_per_pair_index (rows : list MoneyRow) :
  index (Task4.sum_per_pair rows) = group_keys Task4.pair_key_of rows.
Proof. unfold Task4.sum_per_pair. apply index_agg_groupby. Qed.

Section BlankInvestors.
Context {SV : SortValues}.

Lemma df_money_filtered_In (df : Table) (m : MoneyRow) :
  In m (Task5.df_money_filtered df) ->
  In m (Task4.df_money df)
  /\ investor (base m) <> "Y Combinator"
  /\ In (investor (base m)) (Task5.top_investors_no_yc df).
Proof.
  unfold Task5.df_money_filtered, Task5.df_money_without_excluded.
  rewrite !filter_In, isin_In. intros [[Hm Hex] Htop].
  repeat split; try assumption.
  unfold Task5.not_excluded, Task5.EXCLUDED_INVESTORS in Hex.
  apply negb_true_iff, isin_not_In in Hex.
  intros E. apply Hex. now left.
Qed.

(** C3, as amended: no row of the expanded table of analyses #3 to #5, no
    investor of the two top-5 rankings and no group of the three grouped
    outputs has a blank investor name (empty once stripped), and a deal
    whose whole investor cell is "Not Mentioned" contributes no row. *)
Theorem blank_investors_excluded (df : Table) :
  Forall (fun r => Str.strip (investor r) <> "") (Task3.df_exp df)
  /\ Forall (fun v => Str.strip v <> "") (Task3.top_investors df)
  /\ Forall (fun v => Str.strip v <> "") (Task5.top_investors_no_yc df)
  /\ Forall (fun k => Str.strip (fst k) <> "")
            (index (Task3.inv_ind_deals df))
  /\ Forall (fun k => Str.strip (fst k) <> "")
            (index (Task4.inv_ind_money df))
  /\ Forall (fun k => Str.strip (fst k) <> "")
            (index (Task5.inv_ind_money_no_yc df))
  /\ forall (pre post : Table) (o i : string) (m : Q) (c : Z),
       Task3.df_exp (pre ++ deal o i "Not Mentioned" m c :: post)
       = Task3.df_exp (pre ++ post).
Proof.
  assert (Hexp : forall r, In r (Task3.df_exp df) ->
                           Str.strip (investor r) <> "")
    by (intros r; apply df_exp_named).
  assert (Hmoney : forall m, In m (Task4.df_money df) ->
                             Str.strip (investor (base m)) <> "").
  { intros m Hm. apply df_money_In in Hm as (_ & _ & Hb & _). auto. }
  repeat split.
  - now apply Forall_forall.
  - apply Forall_forall. intros v Hv.
    apply top_by_orgs_In in Hv as (r & Hr & <-). auto.
  - apply Forall_forall. intros v Hv.
    apply top_by_orgs_In in Hv as (m & Hm & <-).
    apply filter_In in Hm as [Hm _]. auto.
  - apply Forall_forall. intros k Hk.
    unfold Task3.inv_ind_deals in Hk. rewrite index_agg_groupby in Hk.
    apply group_keys_In in Hk as (r & Hr & <-). cbn [fst].
    unfold Task3.df_top, Task3.df_top_inv in Hr.
    rewrite !filter_In in Hr. apply Hexp. tauto.
  - apply Forall_forall. intros k Hk.
    unfold Task4.inv_ind_money in Hk. rewrite sum_per_pair_index in Hk.
    apply group_keys_In in Hk as (m & Hm & <-). apply Hmoney, Hm.
  - apply Forall_forall. intros k Hk.
    unfold Task5.inv_ind_money_no_yc in Hk.
    rewrite sum_per_pair_index in Hk.
    apply group_keys_In in Hk as (m & Hm & <-).
    apply df_money_filtered_In in Hm as (Hm & _). apply Hmoney, Hm.
  - intros pre post o i m c.
    rewrite !df_exp_app, df_exp_cons, df_exp_not_mentioned. reflexivity.
Qed.
End BlankInvestors.

(** C3, as stated, fails: the marker as one entry of a longer investor list
    is not normalized; its row stays in the expanded table, its name enters
    the top-5 ranking and the grouped outputs of analyses #3 and #4. *)
Lemma not_mentioned_inside_a_list_is_kept :
  exists r,
    In r (Task3.df_exp marker_in_list_deals)
    /\ investor r = "Not Mentioned"
    /\ In (investor r)
          (Task3.top_investors (SV := stable_sort_values) marker_in_list_deals)
    /\ In (investor r, "AI")
          (index (Task3.inv_ind_deals (SV := stable_sort_values)
                    marker_in_list_deals))
    /\ In (investor r, "AI")
          (index (Task4.inv_ind_money (SV := stable_sort_values)
                    marker_in_list_deals)).
Proof.
  exists (deal "A" "AI" "Not Mentioned" 100%Q 2%Z).
  vm_compute. intuition.
Qed.

(** ** The per-investor quotient *)

Lemma replace_zero_nonzero (d : Z) : Task4.replace_zero d <> 0%Z.
Proof.
  unfold Task4.replace_zero. destruct (Z.eqb_spec d 0); [discriminate|assumption].
Qed.

(** The quotient is always finite: its divisor is never zero. *)
Lemma per_investor_share (r : Row string string) :
  Task4.per_investor r = Fin (Task4.share r).
Proof.
  unfold Task4.per_investor, Task4.share, fdiv.
  destruct (Z.eqb_spec (Task4.replace_zero (investor_count_computed r)) 0)
    as [E|_]; [|reflexivity].
  now apply replace_zero_nonzero in E.
Qed.

Lemma with_money_per_investor_In (rows : Table) (m : MoneyRow) :
  In m (Task4.with_money_per_investor rows) ->
  In (base m) rows /\ money_per_investor m = Fin (Task4.share (base m)).
Proof.
  unfold Task4.with_money_per_investor. rewrite in_map_iff.
  intros (r & <- & Hr). cbn. split; [assumption | apply per_investor_share].
Qed.

(** C6: on every row of the expanded table whose investor count is zero the
    quotient is computed with divisor 1: [money_per_investor] is finite and
    equal to the row's money, not an infinity and not NaN. *)
Theorem zero_count_attributes_full_money (df : Table) (m : MoneyRow) :
  In m (Task4.with_money_per_investor (Task3.df_exp df)) ->
  investor_count_computed (base m) = 0%Z ->
  Task4.replace_zero (investor_count_computed (base m)) = 1%Z
  /\ exists q, money_per_investor m = Fin q
               /\ (q == money_raised (base m))%Q.
Proof.
  intros Hm Hzero.
  apply with_money_per_investor_In in Hm as [_ Hq].
  split; [now rewrite Hzero|].
  exists (Task4.share (base m)). split; [exact Hq|].
  unfold Task4.share. rewrite Hzero. cbn. field.
Qed.

Lemma zero_count_attributes_full_money_witness :
  exists q, money_per_investor
              (mkMoneyRow (deal "A" "AI" "X" 100%Q 0%Z) (Fin (100 / 1)%Q))
            = Fin q
            /\ (q == 100)%Q.
Proof.
  apply (zero_count_attributes_full_money uncounted_deals
           (mkMoneyRow (deal "A" "AI" "X" 100%Q 0%Z) (Fin (100 / 1)%Q))).
  - vm_compute. left. reflexivity.
  - reflexivity.
Defined.

(** ** Sums *)

Lemma Qsum_cons (x : Q) (l : list Q) : Qsum (x :: l) = (x + Qsum l)%Q.
Proof. reflexivity. Qed.

Lemma fold_fadd_Fin (l : list Q) (a : Q) :
  fold_left fadd (map Fin l) (Fin a) = Fin (fold_left Qplus l a).
Proof.
  revert a. induction l as [|x l IH]; intros a; cbn; [reflexivity|].
  apply IH.
Qed.

Lemma fold_left_Qplus (l : list Q) (a : Q) :
  (fold_left Qplus l a == a + Qsum l)%Q.
Proof.
  revert a. induction l as [|x l IH]; intros a.
  - change (Qsum []) with 0%Q. cbn [fold_left]. ring.
  - cbn [fold_left]. rewrite IH, Qsum_cons. ring.
Qed.

Lemma filter_not_nan_Fin (l : list Q) :
  filter (fun a => negb (is_nan a)) (map Fin l) = map Fin l.
Proof. induction l as [|x l IH]; cbn; [reflexivity | now rewrite IH]. Qed.

Lemma money_column_shares (rows : list MoneyRow) :
  Forall (fun m => money_per_investor m = Fin (Task4.share (base m))) rows ->
  map money_per_investor rows = map Fin (shares rows).
Proof.
  unfold shares. induction 1 as [|m rows Hm _ IH]; cbn; [reflexivity|].
  now rewrite Hm, IH.
Qed.

Lemma with_money_per_investor_shares (rows : Table) :
  Forall (fun m => money_per_investor m = Fin (Task4.share (base m)))
         (Task4.with_money_per_investor rows).
Proof.
  apply Forall_forall. intros m Hm.
  now apply with_money_per_investor_In in Hm.
Qed.

(** ** The rows of one deal *)

Lemma flat_map_list_prod {A B C : Type} (f : A * B -> C) (l1 : list A)
  (l2 : list B) :
  flat_map (fun x => map (fun y => f (x, y)) l2) l1 = map f (list_prod l1 l2).
Proof.
  induction l1 as [|x l1 IH]; cbn; [reflexivity|].
  now rewrite map_app, map_map, IH.
Qed.

(** The rows of a deal are the pairs of its listed industries and named
    investors, industry by industry. *)
Lemma df_exp_single_prod (r : Row string string) :
  Task3.df_exp [r] =
  map (deal_row r)
      (list_prod (Task3.listed_industries r) (Task3.listed_investors r)).
Proof.
  rewrite df_exp_single.
  apply (flat_map_list_prod (deal_row r)).
Qed.


Lemma length_filter_eqb (x : string) (l : list string) :
  List.length (filter (String.eqb x) l) = count_occ string_dec l x.
Proof.
  induction l as [|y l IH]; cbn; [reflexivity|].
  destruct (String.eqb_spec x y) as [E|N];
    destruct (string_dec y x) as [E'|N']; cbn; congruence.
Qed.

Lemma Forall_filter {A : Type} (P : A -> Prop) (p : A -> bool) (l : list A) :
  Forall P l -> Forall P (filter p l).
Proof.
  rewrite !Forall_forall. intros Hl x Hx.
  apply filter_In in Hx as [Hx _]. auto.
Qed.

(** ** The treemap of the scenario *)

Example treemap_scenario :
  Task2.funding_treemap_df (SV := stable_sort_values) scenario
  = [("AI", 300%Q); ("Software", 100%Q); ("Other", 0%Q)].
Proof. reflexivity. Qed.

(** ** The two explodes, table by table *)

Lemma df_industry_app (a b : Table) :
  df_industry (a ++ b) = df_industry a ++ df_industry b.
Proof.
  unfold df_industry, explode_industries, assign_industries.
  now rewrite map_app, flat_map_app.
Qed.

Lemma expand_investors_app (a b : Table) :
  expand_investors (a ++ b) = expand_investors a ++ expand_investors b.
Proof.
  unfold expand_investors, explode_investors, assign_investors.
  now rewrite map_app, flat_map_app.
Qed.

Lemma df_industry_single (r : Row string string) :
  df_industry [r]
  = map (fun i => set_industries i r)
        (Str.pieces (Str.split (organization_industries r))).
Proof.
  unfold df_industry, explode_industries, assign_industries.
  cbn [map flat_map]. rewrite app_nil_r.
  apply map_ext. reflexivity.
Qed.

Lemma expand_investors_single (r : Row string string) :
  expand_investors [r]
  = map (fun v => set_investors v r)
        (Str.pieces (Str.split (investor_names r))).
Proof.
  unfold expand_investors, explode_investors, assign_investors.
  cbn [map flat_map]. rewrite app_nil_r.
  apply map_ext. reflexivity.
Qed.

Example df_industry_scenario :
  map (fun x => (industry x, org x)) (df_industry scenario)
  = [("AI", "A"); ("Software", "A"); ("AI", "B")].
Proof. reflexivity. Qed.

(** ** Groups of the industry-expanded table by organization *)

Lemma lookup_map_keys {B : Type} (F : string -> B) (ks : list string)
  (k : string) :
  In k ks -> lookup k (map (fun k' => (k', F k')) ks) = Some (F k).
Proof.
  induction ks as [|k' ks IH]; intros Hk; [contradiction|].
  cbn [map lookup]. destruct (String.eqb_spec k k') as [->|N].
  - reflexivity.
  - destruct Hk as [->|Hk]; [contradiction | now apply IH].
Qed.

Lemma lookup_agg_groupby {A B : Type} (f : list A -> B) (key : A -> string)
  (rows : list A) (r : A) :
  In r rows ->
  lookup (key r) (agg f (groupby key rows))
  = Some (f (group_rows key (key r) rows)).
Proof.
  intros Hr. unfold agg, groupby. rewrite map_map. cbn [fst snd].
  apply (lookup_map_keys (fun k => f (group_rows key k rows))).
  apply group_keys_In. eauto.
Qed.

Lemma df_industry_org (df : Table) (x : Row string string) :
  In x (df_industry df) ->
  exists r, In r df /\ organization_name x = organization_name r.
Proof.
  unfold df_industry, explode_industries, assign_industries.
  rewrite flat_map_map, in_flat_map.
  intros (r & Hr & Hx). apply in_map_iff in Hx as (i & <- & _).
  exists r. split; [assumption | reflexivity].
Qed.

Lemma filter_all {A : Type} (p : A -> bool) (l : list A) :
  (forall x, In x l -> p x = true) -> filter p l = l.
Proof.
  induction l as [|x l IH]; intros Hp; [reflexivity|].
  cbn. rewrite (Hp x) by now left. f_equal. apply IH.
  intros y Hy. apply Hp. now right.
Qed.

Lemma filter_none {A : Type} (p : A -> bool) (l : list A) :
  (forall x, In x l -> p x = false) -> filter p l = [].
Proof.
  induction l as [|x l IH]; intros Hp; [reflexivity|].
  cbn. rewrite (Hp x) by now left. apply IH.
  intros y Hy. apply Hp. now right.
Qed.

(** Where one organization has two rounds, the collapse gives one string that
    holds the labels of both, which are not the labels of its first round. *)
Example collapse_merges_rounds_of_one_organization :
  In (deal "A" "AI" "X" 100%Q 1%Z) two_rounds
  /\ lookup "A" (collapse (df_industry two_rounds)) = Some "AI, Software"
  /\ ~ same_labels "AI, Software" "AI".
Proof.
  split; [now left|]. split; [reflexivity|].
  intros Hsame. destruct (proj1 (Hsame "Software")) as [E|[]].
  - cbn. auto.
  - discriminate.
Qed.

(** ** C9: analysis #1 and the order of the rows *)

Lemma Permutation_filter {A : Type} (p : A -> bool) (l l' : list A) :
  Permutation l l' -> Permutation (filter p l) (filter p l').
Proof.
  induction 1 as [|x l l' _ IH|x y l|l1 l2 l3 _ IH1 _ IH2]; cbn.
  - constructor.
  - destruct (p x); [now constructor | assumption].
  - destruct (p x), (p y); try reflexivity. apply perm_swap.
  - now rewrite IH1.
Qed.

Lemma df_industry_perm (df df' : Table) :
  Permutation df df' -> Permutation (df_industry df) (df_industry df').
Proof.
  intros P. unfold df_industry, explode_industries, assign_industries.
  now apply Permutation_flat_map, Permutation_map.
Qed.

(** Counting per group does not depend on the order of the rows. *)
Lemma agg_count_perm {A : Type} (key o : A -> string) (rows rows' : list A) :
  Permutation rows rows' ->
  agg (count o) (groupby key rows) = agg (count o) (groupby key rows').
Proof.
  intros P. unfold agg, groupby. rewrite !map_map. cbn [fst snd].
  rewrite (group_keys_perm key P). apply map_ext. intros k.
  f_equal. unfold count, group_rows. rewrite !length_map.
  now apply Permutation_length, Permutation_filter.
Qed.

Section Task1Facts.
Context {SV : SortValues}.

Lemma deals_by_industry_perm (df df' : Table) :
  Permutation df df' ->
  Task1.deals_by_industry df = Task1.deals_by_industry df'.
Proof.
  intros P. unfold Task1.deals_by_industry. do 2 f_equal.
  now apply agg_count_perm, Permutation_filter, df_industry_perm.
Qed.

(** C9, as amended: analysis #1 is a function of the loaded table, and one
    that does not look at the order of its rows: any rearrangement of the
    rows gives the same ranked top 10.  The counts reach the sort with
    their labels in ascending order, so a tie is settled by the sort
    routine from that order, not from the order in which the industries
    are first met. *)
Theorem deals_by_industry_row_order_irrelevant (df df' : Table) :
  Permutation df df' ->
  Task1.deals_by_industry df = Task1.deals_by_industry df'
  /\ StronglySorted (fun a b => String.leb a b = true /\ a <> b)
       (index (agg (count org)
                 (groupby industry
                    (filter nonempty_industry (df_industry df))))).
Proof.
  intros P. split.
  - now apply deals_by_industry_perm.
  - rewrite index_agg_groupby.
    exact (group_keys_sorted industry
             (filter nonempty_industry (df_industry df))).
Qed.
End Task1Facts.

Lemma deals_by_industry_row_order_irrelevant_witness :
  Task1.deals_by_industry (SV := stable_sort_values) software_then_ai
  = Task1.deals_by_industry (SV := stable_sort_values) ai_then_software.
Proof.
  apply (@deals_by_industry_row_order_irrelevant
           stable_sort_values software_then_ai ai_then_software).
  apply perm_swap.
Defined.

Lemma deals_by_industry_two_deals (SV : SortValues) (t : Table) :
  agg (count org) (groupby industry (filter nonempty_industry (df_industry t)))
  = [("AI", 1); ("Software", 1)] ->
  Task1.deals_by_industry t = [("AI", 1); ("Software", 1)]
  \/ Task1.deals_by_industry t = [("Software", 1); ("AI", 1)].
Proof.
  intros E. unfold Task1.deals_by_industry. rewrite E.
  pose proof (sort_values_perm (fun p : string * nat => Qnat (snd p))
                [("AI", 1); ("Software", 1)]) as P.
  apply Permutation_sym, Permutation_length_2_inv in P.
  destruct P as [-> | ->]; [left | right]; reflexivity.
Qed.

(** C9, as stated, fails, whatever the sort routine: two deals with one
    industry each tie at one deal; the table that lists them in one order and
    the table that lists them in the other get the same ranking, so in one of
    the two the tie is not in first-seen order. *)
Lemma ties_not_first_seen :
  ~ exists SV : SortValues,
      ties_first_seen (Task1.deals_by_industry software_then_ai)
                      (df_industry software_then_ai)
      /\ ties_first_seen (Task1.deals_by_industry ai_then_software)
                         (df_industry ai_then_software).
Proof.
  intros (SV & H1 & H2).
  destruct (deals_by_industry_two_deals SV software_then_ai eq_refl) as [E|E].
  - specialize (H1 "AI" "Software" 1). rewrite E in H1.
    cbn in H1. assert (1 < 0) by (apply H1; auto; lia). lia.
  - assert (E2 : Task1.deals_by_industry ai_then_software
                 = [("Software", 1); ("AI", 1)]).
    { destruct (deals_by_industry_two_deals SV ai_then_software eq_refl)
        as [E'|E']; [|exact E'].
      pose proof (@deals_by_industry_perm
                    SV software_then_ai ai_then_software (perm_swap _ _ _))
        as Eq.
      congruence. }
    specialize (H2 "Software" "AI" 1). rewrite E2 in H2.
    cbn in H2. assert (1 < 0) by (apply H2; auto; lia). lia.
Qed.

Example deals_by_industry_stable_ties :
  Task1.deals_by_industry (SV := stable_sort_values) software_then_ai
  = [("AI", 1); ("Software", 1)].
Proof. reflexivity. Qed.

(** ** Reading the grouped money *)

Lemma fsum_Fin_eq (l : list Q) : fsum (map Fin l) = Fin (fold_left Qplus l 0%Q).
Proof. unfold fsum. now rewrite filter_not_nan_Fin, fold_fadd_Fin. Qed.

Lemma filter_filter {A : Type} (p q : A -> bool) (l : list A) :
  filter p (filter q l) = filter (fun x => q x && p x) l.
Proof.
  induction l as [|x l IH]; cbn; [reflexivity|].
  destruct (q x); cbn; [destruct (p x)|]; now rewrite IH.
Qed.

Lemma NoDup_filter {A : Type} (p : A -> bool) (l : list A) :
  NoDup l -> NoDup (filter p l).
Proof.
  induction 1 as [|x l Hx _ IH]; cbn; [constructor|].
  destruct (p x); [|assumption].
  constructor; [|assumption].
  rewrite filter_In. tauto.
Qed.

(** ** The rows of one deal among the rows of a table *)


Example inv_ind_money_scenario :
  Task4.pair_value "X" "AI"
    (Task4.inv_ind_money (SV := stable_sort_values) scenario)
  = Fin (0 + (400 # 2))%Q.
Proof. reflexivity. Qed.

(** ** Ties under the stable sort *)

Section StableTies.
Context {B : Type} (f : string * B -> Q).

Let lab_lt (a b : string) : Prop := String.leb a b = true /\ a <> b.

Lemma by_value_then_label_le (x y : string * B) :
  by_value_then_label f x y -> (f y <= f x)%Q.
Proof.
  intros [L|(E & _)]; [now apply Qlt_le_weak | rewrite E; apply Qle_refl].
Qed.

Lemma insert_desc_ties (x : string * B) (l : list (string * B)) :
  StronglySorted (by_value_then_label f) l ->
  Forall (fun y => lab_lt (fst x) (fst y)) l ->
  StronglySorted (by_value_then_label f) (insert_desc f x l).
Proof.
  induction 1 as [|y t Hs IH Hy]; intros Hx; cbn.
  - repeat constructor.
  - apply Forall_cons_iff in Hx as [Hxy Hxt].
    destruct (Qle_bool (f y) (f x)) eqn:E.
    + apply Qle_bool_iff in E.
      constructor; [now constructor|].
      assert (Hle : forall z, In z (y :: t) -> (f z <= f x)%Q).
      { intros z [<-|Hz]; [exact E|].
        rewrite Forall_forall in Hy.
        eapply Qle_trans; [apply by_value_then_label_le, Hy, Hz | exact E]. }
      apply Forall_forall. intros z Hz.
      assert (Hlab : lab_lt (fst x) (fst z)).
      { destruct Hz as [<-|Hz]; [exact Hxy|].
        rewrite Forall_forall in Hxt. now apply Hxt. }
      destruct (Qlt_le_dec (f z) (f x)) as [L|L]; [now left|].
      right. split; [|exact Hlab].
      apply Qle_antisym; [exact L | now apply Hle].
    + assert (L : (f x < f y)%Q).
      { apply Qnot_le_lt. intros L. apply Qle_bool_iff in L. congruence. }
      constructor; [now apply IH|].
      apply Forall_forall. intros z Hz.
      apply (Permutation_in _ (insert_desc_perm f x t)) in Hz.
      destruct Hz as [<-|Hz]; [now left|].
      rewrite Forall_forall in Hy. now apply Hy.
Qed.

(** The stable sort of a series whose labels ascend settles every tie by
    ascending label. *)
Lemma stable_sort_desc_ties (s : list (string * B)) :
  StronglySorted lab_lt (index s) ->
  StronglySorted (by_value_then_label f) (stable_sort_desc f s).
Proof.
  induction s as [|x s IH]; intros Hs; cbn; [constructor|].
  cbn in Hs. apply StronglySorted_inv in Hs as [Hs Hx].
  apply insert_desc_ties; [now apply IH|].
  apply Forall_forall. intros y Hy.
  apply (Permutation_in _ (stable_sort_desc_perm f s)) in Hy.
  rewrite Forall_forall in Hx. apply Hx. unfold index. now apply in_map.
Qed.
End StableTies.

Lemma StronglySorted_firstn {A : Type} (R : A -> A -> Prop) (n : nat)
  (l : list A) :
  StronglySorted R l -> StronglySorted R (firstn n l).
Proof.
  intros Hl. revert n.
  induction Hl as [|x l Hl IH Hx]; intros [|n]; cbn; try constructor.
  - apply IH.
  - apply Forall_forall. intros y Hy.
    rewrite Forall_forall in Hx. apply Hx.
    rewrite <- (firstn_skipn n l). apply in_or_app. now left.
Qed.

(** Under the stable sort, analysis #1 ranks by deal count and, among equal
    counts, by ascending industry label. *)
Lemma deals_by_industry_stable_ties_by_label (df : Table) :
  StronglySorted (by_value_then_label (fun p => Qnat (snd p)))
    (Task1.deals_by_industry (SV := stable_sort_values) df).
Proof.
  unfold Task1.deals_by_industry, head.
  apply StronglySorted_firstn.
  apply (stable_sort_desc_ties (fun p : string * nat => Qnat (snd p))).
  rewrite index_agg_groupby.
  exact (group_keys_sorted industry
           (filter nonempty_industry (df_industry df))).
Qed.

(** ** The scenario of the specification *)

Example split_empty : Str.pieces (Str.split "") = [""].
Proof. reflexivity. Qed.

Example split_two : Str.pieces (Str.split "AI, Software") = ["AI"; "Software"].
Proof. reflexivity. Qed.

Example split_leftmost : Str.pieces (Str.split ",, a,b , ") = [","; "a,b "; ""].
Proof. reflexivity. Qed.

Example strip_both_ends : Str.strip "  a b  " = "a b".
Proof. reflexivity. Qed.

Example deals_by_industry_scenario :
  Task1.deals_by_industry (SV := stable_sort_values) scenario
  = [("AI", 2); ("Software", 1)].
Proof. reflexivity. Qed.

(** * Further properties of the pipeline *)

(** ** The split and the strip *)

Lemma has_sep_cons_cons (c c' : ascii) (s : string) :
  has_sep (String c (String c' s))
  = (Ascii.eqb c "," && Ascii.eqb c' " ") || has_sep (String c' s).
Proof. reflexivity. Qed.

Lemma has_sep_append (a b : string) : has_sep (a ++ ", " ++ b) = true.
Proof.
  induction a as [|c a IH]; [reflexivity|].
  destruct a as [|c' a']; cbn [append] in IH |- *;
    rewrite has_sep_cons_cons, IH; apply orb_true_r.
Qed.

Lemma has_sep_inv (s : string) :
  has_sep s = true -> exists a b, s = (a ++ ", " ++ b)%string.
Proof.
  induction s as [|c s IH]; [discriminate|].
  destruct s as [|c' rest]; [discriminate|].
  rewrite has_sep_cons_cons. intros H.
  apply orb_true_iff in H as [H|H].
  - apply andb_true_iff in H as [Hc Hc'].
    apply Ascii.eqb_eq in Hc, Hc'. subst.
    exists EmptyString, rest. reflexivity.
  - destruct (IH H) as (a & b & E).
    exists (String c a), b. rewrite E. reflexivity.
Qed.

Lemma split_pieces_no_sep (s : string) :
  Forall (fun p => has_sep p = false) (Str.pieces (Str.split s))
  /\ forall c, Forall (fun p => has_sep p = false)
                      (Str.pieces (Str.split (String c s))).
Proof.
  induction s as [|c' rest [IHrest IHcons]].
  - split; [repeat constructor | intro c; repeat constructor].
  - split; [apply IHcons | intro c].
    specialize (IHcons c'). rewrite split_cons_cons.
    destruct (Ascii.eqb c "," && Ascii.eqb c' " ")%bool eqn:Hsep.
    + destruct (Str.split rest) as [h t].
      unfold Str.pieces in *. cbn [fst snd] in *.
      constructor; [reflexivity | exact IHrest].
    + destruct (Str.split (String c' rest)) as [h t] eqn:Hsplit.
      unfold Str.pieces in *. cbn [fst snd] in *.
      apply Forall_cons_iff in IHcons as [Hh Ht].
      constructor; [|exact Ht].
      (* the first piece of [c' rest] starts with [c'] unless the split
         starts with a separator, and [c c'] is no separator *)
      destruct h as [|c'' h']; [reflexivity|].
      rewrite has_sep_cons_cons, Hh, orb_false_r.
      assert (Ec : c'' = c').
      { destruct rest as [|c3 rest']; [now inversion Hsplit|].
        rewrite split_cons_cons in Hsplit.
        destruct (Ascii.eqb c' "," && Ascii.eqb c3 " ")%bool;
          destruct (Str.split rest'), (Str.split (String c3 rest'));
          now inversion Hsplit. }
      now subst c''.
Qed.

Lemma split_append_sep (x rest : string) :
  has_sep x = false ->
  Str.split (x ++ ", " ++ rest) = (x, Str.pieces (Str.split rest)).
Proof.
  induction x as [|c x IH]; intros Hx.
  - cbn [append]. rewrite split_cons_cons. cbn.
    now destruct (Str.split rest).
  - destruct x as [|c2 x'].
    + specialize (IH eq_refl). cbn [append] in IH |- *.
      rewrite split_cons_cons, IH.
      assert (E : Ascii.eqb "," " " = false) by reflexivity.
      rewrite E, andb_false_r. reflexivity.
    + rewrite has_sep_cons_cons in Hx.
      apply orb_false_iff in Hx as [Hsep Hx].
      specialize (IH Hx). cbn [append] in IH |- *.
      rewrite split_cons_cons, Hsep, IH. reflexivity.
Qed.

Lemma split_join_pieces (h : string) (t : list string) :
  Forall (fun p => has_sep p = false) (h :: t) ->
  Str.split (Str.join (h :: t)) = (h, t).
Proof.
  revert h. induction t as [|x t IH]; intros h Hl.
  - cbn [Str.join]. apply Forall_cons_iff in Hl as [Hh _].
    (* a string without separator is its own single piece *)
    clear -Hh. induction h as [|c h IHh]; [reflexivity|].
    destruct h as [|c' h']; [reflexivity|].
    rewrite split_cons_cons. rewrite has_sep_cons_cons in Hh.
    apply orb_false_iff in Hh as [Hsep Hh]. rewrite Hsep.
    now rewrite (IHh Hh).
  - apply Forall_cons_iff in Hl as [Hh Hl].
    change (Str.join (h :: x :: t)) with (h ++ ", " ++ Str.join (x :: t))%string.
    rewrite (split_append_sep h (Str.join (x :: t)) Hh), (IH x Hl).
    reflexivity.
Qed.

(** X1: joining the pieces of a split with ", " gives the string back, and no
    piece of a split contains the separator. *)
Theorem split_then_join (s : string) :
  Str.join (Str.pieces (Str.split s)) = s
  /\ forall p a b,
       In p (Str.pieces (Str.split s)) -> p <> (a ++ ", " ++ b)%string.
Proof.
  split.
  - apply split_join_step.
  - intros p a b Hp E.
    pose proof (proj1 (split_pieces_no_sep s)) as Hs.
    rewrite Forall_forall in Hs. specialize (Hs p Hp).
    rewrite E, has_sep_append in Hs. discriminate.
Qed.

(** X2: a non-empty list of strings none of which contains the separator is
    the split of its join. *)
Theorem join_then_split (h : string) (t : list string) :
  (forall p, In p (h :: t) -> forall a b, p <> (a ++ ", " ++ b)%string) ->
  Str.pieces (Str.split (Str.join (h :: t))) = h :: t.
Proof.
  intros Hl. rewrite split_join_pieces; [reflexivity|].
  apply Forall_forall. intros p Hp.
  destruct (has_sep p) eqn:E; [|reflexivity].
  apply has_sep_inv in E as (a & b & E).
  now destruct (Hl p Hp a b).
Qed.

Lemma no_sep_neq (p a b : string) :
  has_sep p = false -> p <> (a ++ ", " ++ b)%string.
Proof. intros Hp E. rewrite E, has_sep_append in Hp. discriminate. Qed.

Lemma join_then_split_witness :
  Str.pieces (Str.split (Str.join ["AI"; "a,b"; ""; " x"]))
  = ["AI"; "a,b"; ""; " x"].
Proof.
  apply (@join_then_split "AI" ["a,b"; ""; " x"]).
  intros p Hp a b. apply no_sep_neq.
  cbn in Hp. decompose [or] Hp; subst; try reflexivity. contradiction.
Defined.

(** ** Blank names *)

Lemma all_space_nil : all_space EmptyString.
Proof. intros c []. Qed.

Lemma all_space_cons (c : ascii) (s : string) :
  all_space (String c s) <-> Str.isspace c = true /\ all_space s.
Proof.
  unfold all_space. cbn [list_ascii_of_string]. split.
  - intros Hs. split; [apply Hs; now left | intros x Hx; apply Hs; now right].
  - intros [Hc Hs] x [<-|Hx]; auto.
Qed.

Lemma lstrip_all_space (s : string) : all_space (Str.lstrip s) <-> all_space s.
Proof.
  induction s as [|c s IH]; [reflexivity|].
  cbn [Str.lstrip]. destruct (Str.isspace c) eqn:E.
  - rewrite IH, all_space_cons. tauto.
  - reflexivity.
Qed.

Lemma rstrip_empty_iff (s : string) :
  Str.rstrip s = EmptyString <-> all_space s.
Proof.
  induction s as [|c s IH].
  - split; [intros _; apply all_space_nil | reflexivity].
  - rewrite all_space_cons. cbn [Str.rstrip].
    destruct (Str.rstrip s) as [|c' r] eqn:Er.
    + destruct (Str.isspace c).
      * split; [|reflexivity].
        intros _. split; [reflexivity | now apply IH].
      * split; [discriminate|]. intros [Hc _]. discriminate.
    + split; [discriminate|]. intros [_ Hs].
      apply IH in Hs. discriminate.
Qed.

(** X3: a name is blank for analyses #3 to #5, that is [strip] of it is empty,
    exactly when it consists of whitespace only (the empty name included);
    a row of the expanded table is kept exactly when its investor name has a
    character that is not whitespace. *)
Theorem strip_empty_iff_all_space (v : string) :
  (Str.strip v = EmptyString <-> all_space v)
  /\ (Task3.named v = true <-> ~ all_space v).
Proof.
  assert (H : Str.strip v = EmptyString <-> all_space v).
  { unfold Str.strip. rewrite rstrip_empty_iff. apply lstrip_all_space. }
  split; [exact H|].
  unfold Task3.named. rewrite negb_true_iff, String.eqb_neq. now rewrite H.
Qed.

(** ** Rankings: the first [n] of a sorted series *)

Lemma Qnat_le (a b : nat) : (Qnat a <= Qnat b)%Q <-> a <= b.
Proof. unfold Qnat. rewrite <- Zle_Qle. lia. Qed.

Lemma StronglySorted_app_inv {A : Type} (R : A -> A -> Prop)
  (l1 l2 : list A) :
  StronglySorted R (l1 ++ l2) ->
  forall x y, In x l1 -> In y l2 -> R x y.
Proof.
  induction l1 as [|a l1 IH]; intros Hs x y Hx Hy; [contradiction|].
  cbn in Hs. apply StronglySorted_inv in Hs as [Hs Ha].
  destruct Hx as [<-|Hx].
  - rewrite Forall_forall in Ha. apply Ha, in_or_app. now right.
  - now apply IH.
Qed.

Lemma NoDup_map_firstn {A B : Type} (g : A -> B) (n : nat) (l : list A) :
  NoDup (map g l) -> NoDup (map g (firstn n l)).
Proof.
  intros Hl. rewrite <- (firstn_skipn n l), map_app in Hl.
  now apply NoDup_app_remove_r in Hl.
Qed.

Section Ranked.
Context {SV : SortValues} {A : Type}.
Variables (key : A -> string) (f : list A -> nat) (rows : list A) (n : nat).

Let sorted_series : list (string * nat) :=
  sort_values_desc (fun p => Qnat (snd p)) (agg f (groupby key rows)).

Lemma sorted_series_In (k : string) (c : nat) :
  In (k, c) sorted_series <->
  In k (group_keys key rows) /\ c = f (group_rows key k rows).
Proof.
  unfold sorted_series. rewrite sort_values_In.
  unfold agg, groupby. rewrite map_map, in_map_iff. cbn [fst snd]. split.
  - intros (k' & [= <- <-] & Hk). auto.
  - intros [Hk ->]. eauto.
Qed.

Lemma sorted_series_NoDup : NoDup (index sorted_series).
Proof.
  unfold sorted_series, index.
  eapply Permutation_NoDup.
  - apply Permutation_sym, Permutation_map, sort_values_perm.
  - change (map fst ?s) with (index s). rewrite index_agg_groupby.
    apply group_keys_NoDup.
Qed.

Lemma ranked_length : List.length (head n sorted_series) <= n.
Proof. unfold head. apply firstn_le_length. Qed.

Lemma ranked_NoDup : NoDup (index (head n sorted_series)).
Proof. apply NoDup_map_firstn, sorted_series_NoDup. Qed.

Lemma ranked_In (k : string) (c : nat) :
  In (k, c) (head n sorted_series) ->
  c = f (group_rows key k rows) /\ exists r, In r rows /\ key r = k.
Proof.
  intros Hin. apply head_In, sorted_series_In in Hin as [Hk ->].
  split; [reflexivity | now apply group_keys_In].
Qed.

Lemma ranked_descending :
  StronglySorted (fun x y : string * nat => snd y <= snd x)
                 (head n sorted_series).
Proof.
  unfold head. apply StronglySorted_firstn.
  pose proof (sort_values_sorted (fun p : string * nat => Qnat (snd p))
                (agg f (groupby key rows))) as Hs.
  fold sorted_series in Hs.
  induction Hs as [|x l Hs IH Hx]; constructor; [exact IH|].
  eapply Forall_impl; [|exact Hx]. intros y Hy. now apply Qnat_le.
Qed.

(** A label left out of the first [n] has no larger value than any label
    among them. *)
Lemma ranked_dominates (k : string) (c : nat) (r : A) :
  In (k, c) (head n sorted_series) ->
  In r rows -> ~ In (key r) (index (head n sorted_series)) ->
  f (group_rows key (key r) rows) <= c.
Proof.
  intros Hk Hr Hout.
  assert (Hin : In (key r, f (group_rows key (key r) rows)) sorted_series).
  { apply sorted_series_In. split; [|reflexivity].
    apply group_keys_In. eauto. }
  unfold head in *. rewrite <- (firstn_skipn n sorted_series) in Hin.
  apply in_app_or in Hin as [Hin|Hin].
  - destruct Hout. unfold index. now apply (in_map fst) in Hin.
  - pose proof (sort_values_sorted (fun p : string * nat => Qnat (snd p))
                  (agg f (groupby key rows))) as Hs.
    fold sorted_series in Hs.
    rewrite <- (firstn_skipn n sorted_series) in Hs.
    pose proof (@StronglySorted_app_inv _ _ _ _ Hs _ _ Hk Hin) as Hle.
    cbn [snd] in Hle. now apply Qnat_le.
Qed.
End Ranked.

(** ** Analysis #1: the ranking *)

Lemma group_rows_nonempty_industry (i : string) (rows : Table) :
  i <> "" ->
  group_rows industry i (filter nonempty_industry rows)
  = group_rows industry i rows.
Proof.
  intros Hi. unfold group_rows. rewrite filter_filter.
  apply filter_ext. intros r. unfold nonempty_industry. cbn [key_eqb string_key].
  destruct (String.eqb_spec (industry r) i) as [->|N];
    [|apply andb_false_r].
  apply String.eqb_neq in Hi. now rewrite Hi.
Qed.

Lemma group_rows_In {A : Type} (key : A -> string) (k : string)
  (rows : list A) (r : A) :
  In r rows -> key r = k -> 1 <= List.length (group_rows key k rows).
Proof.
  intros Hr Hk.
  assert (Hin : In r (group_rows key k rows)).
  { unfold group_rows. apply filter_In. split; [assumption|].
    cbn [key_eqb string_key]. now apply String.eqb_eq. }
  destruct (group_rows key k rows); [contradiction | cbn; lia].
Qed.

Section Task1Ranking.
Context {SV : SortValues}.

(** X4: the ranking of analysis #1 has at most 10 entries with distinct,
    non-empty labels, in descending order of count; the count of an entry is
    the number of rows of the industry-expanded table under its label, at
    least 1; and an industry left out has no more rows than any industry
    kept. *)
Theorem deals_by_industry_ranking (df : Table) :
  List.length (Task1.deals_by_industry df) <= 10
  /\ NoDup (index (Task1.deals_by_industry df))
  /\ StronglySorted (fun x y : string * nat => snd y <= snd x)
       (Task1.deals_by_industry df)
  /\ (forall i c,
        In (i, c) (Task1.deals_by_industry df) ->
        i <> "" /\ 1 <= c /\ c = rows_under industry (df_industry df) i)
  /\ (forall i c r,
        In (i, c) (Task1.deals_by_industry df) ->
        In r (df_industry df) -> industry r <> "" ->
        ~ In (industry r) (index (Task1.deals_by_industry df)) ->
        rows_under industry (df_industry df) (industry r) <= c).
Proof.
  unfold Task1.deals_by_industry.
  set (rows := filter nonempty_industry (df_industry df)).
  assert (Hval : forall i c,
    In (i, c) (head 10 (sort_values_desc (fun p => Qnat (snd p))
                          (agg (count org) (groupby industry rows)))) ->
    i <> "" /\ 1 <= c /\ c = rows_under industry (df_industry df) i).
  { intros i c Hin.
    apply ranked_In in Hin as (-> & r & Hr & <-).
    apply filter_In in Hr as [Hr Hne].
    assert (Hi : industry r <> "").
    { unfold nonempty_industry in Hne.
      now apply negb_true_iff, String.eqb_neq in Hne. }
    unfold rows, count, rows_under.
    rewrite length_map, (@group_rows_nonempty_industry _ (df_industry df) Hi).
    repeat split; [assumption|].
    now apply (@group_rows_In _ industry (industry r) _ r). }
  repeat apply conj.
  - apply ranked_length.
  - apply ranked_NoDup.
  - apply ranked_descending.
  - exact Hval.
  - intros i c r Hin Hr Hne Hout.
    assert (Hr' : In r rows).
    { apply filter_In. split; [assumption|].
      unfold nonempty_industry. now apply negb_true_iff, String.eqb_neq. }
    pose proof (@ranked_dominates _ _ industry (count org) rows 10 i c r
                  Hin Hr' Hout) as Hle.
    unfold rows, count in Hle.
    rewrite length_map, (@group_rows_nonempty_industry _ (df_industry df) Hne)
      in Hle.
    exact Hle.
Qed.
End Task1Ranking.

(** ** Rankings by distinct organizations *)

Section TopByOrgs.
Context {SV : SortValues} {A : Type}.
Variables (key o : A -> string) (n : nat) (rows : list A).

Lemma top_by_orgs_length :
  List.length (Task3.top_by_orgs key o n rows) <= n.
Proof.
  unfold Task3.top_by_orgs, index. rewrite length_map. apply ranked_length.
Qed.

Lemma top_by_orgs_NoDup : NoDup (Task3.top_by_orgs key o n rows).
Proof. unfold Task3.top_by_orgs. apply ranked_NoDup. Qed.

Lemma top_by_orgs_dominates (v : string) (r : A) :
  In v (Task3.top_by_orgs key o n rows) ->
  In r rows -> ~ In (key r) (Task3.top_by_orgs key o n rows) ->
  orgs_under key o rows (key r) <= orgs_under key o rows v.
Proof.
  unfold Task3.top_by_orgs at 1. unfold index. rewrite in_map_iff.
  intros ([k c] & <- & Hin) Hr Hout. cbn [fst].
  pose proof (ranked_In _ _ _ _ _ _ Hin) as [Hc _].
  pose proof (@ranked_dominates _ _ key (nunique o) rows n k c r
                Hin Hr Hout) as Hle.
  unfold orgs_under. now rewrite <- Hc.
Qed.
End TopByOrgs.

Section Task3Rankings.
Context {SV : SortValues}.

(** X5: the two rankings of analysis #3.  The top investors are at most 5 and
    the top industries at most 10, without repetition; each is the investor
    (industry) of some row of the expanded table; and an investor (industry)
    of the expanded table left out of its ranking has no more distinct
    organizations than any one kept. *)
Theorem task3_rankings (df : Table) :
  (List.length (Task3.top_investors df) <= 5
   /\ NoDup (Task3.top_investors df)
   /\ (forall v, In v (Task3.top_investors df) ->
                 exists r, In r (Task3.df_exp df) /\ investor r = v)
   /\ (forall v r,
         In v (Task3.top_investors df) -> In r (Task3.df_exp df) ->
         ~ In (investor r) (Task3.top_investors df) ->
         orgs_under investor org (Task3.df_exp df) (investor r)
         <= orgs_under investor org (Task3.df_exp df) v))
  /\ (List.length (Task3.top_industries df) <= 10
      /\ NoDup (Task3.top_industries df)
      /\ (forall i, In i (Task3.top_industries df) ->
                    exists r, In r (Task3.df_exp df) /\ industry r = i)
      /\ (forall i r,
            In i (Task3.top_industries df) -> In r (Task3.df_exp df) ->
            ~ In (industry r) (Task3.top_industries df) ->
            orgs_under industry org (Task3.df_exp df) (industry r)
            <= orgs_under industry org (Task3.df_exp df) i)).
Proof.
  split; repeat apply conj.
  - apply (top_by_orgs_length investor org Task3.TOP_INVESTORS).
  - apply top_by_orgs_NoDup.
  - intros v. apply top_by_orgs_In.
  - intros v r. apply top_by_orgs_dominates.
  - apply (top_by_orgs_length industry org Task3.TOP_INDUSTRIES).
  - apply top_by_orgs_NoDup.
  - intros i. apply top_by_orgs_In.
  - intros i r. apply top_by_orgs_dominates.
Qed.
End Task3Rankings.

(** ** Analysis #3: the grouped output *)

Lemma pair_key_lt (p q : string * string) : key_lt p q -> pair_lt p q.
Proof.
  destruct p as [a b], q as [a' b']. unfold key_lt, pair_lt.
  cbn [key_leb pair_key string_key key_eqb fst snd].
  intros [Hle Hne].
  destruct (String.eqb_spec a a') as [->|N].
  - right. repeat split; [assumption | congruence].
  - left. split; assumption.
Qed.

Lemma StronglySorted_impl {A : Type} (R R' : A -> A -> Prop) (l : list A) :
  (forall x y, R x y -> R' x y) -> StronglySorted R l -> StronglySorted R' l.
Proof.
  intros HR. induction 1 as [|x l Hs IH Hx]; constructor; [exact IH|].
  eapply Forall_impl; [|exact Hx]. intros y. apply HR.
Qed.

Lemma group_keys_map {A B K : Type} `{Key K} (g : A -> B) (key : B -> K)
  (l : list A) :
  group_keys key (map g l) = group_keys (fun x => key (g x)) l.
Proof.
  unfold group_keys.
  induction l as [|x l IH]; cbn [map fold_right]; [reflexivity|].
  now rewrite IH.
Qed.

Section Task3Groups.
Context {SV : SortValues}.

Lemma df_top_filter (df : Table) :
  Task3.df_top df
  = filter (fun r => isin (investor r) (Task3.top_investors df)
                     && isin (industry r) (Task3.top_industries df))
           (Task3.df_exp df).
Proof. unfold Task3.df_top, Task3.df_top_inv. apply filter_filter. Qed.

Lemma rows_of_pair_df_top (df : Table) (v i : string) :
  In v (Task3.top_investors df) -> In i (Task3.top_industries df) ->
  group_rows (fun r => (investor r, industry r)) (v, i) (Task3.df_top df)
  = rows_of_pair v i (Task3.df_exp df).
Proof.
  intros Hv Hi. rewrite df_top_filter. unfold group_rows, rows_of_pair.
  rewrite filter_filter. apply filter_ext. intros r.
  cbn [key_eqb pair_key string_key fst snd].
  destruct (String.eqb_spec (investor r) v) as [->|N];
    [|now rewrite andb_false_r].
  destruct (String.eqb_spec (industry r) i) as [->|N];
    [|now rewrite !andb_false_r].
  now rewrite (proj2 (isin_In _ _) Hv), (proj2 (isin_In _ _) Hi).
Qed.

Lemma inv_ind_deals_In (df : Table) (v i : string) :
  In (v, i) (index (Task3.inv_ind_deals df)) <->
  In v (Task3.top_investors df) /\ In i (Task3.top_industries df)
  /\ exists r, In r (Task3.df_exp df) /\ investor r = v /\ industry r = i.
Proof.
  unfold Task3.inv_ind_deals. rewrite index_agg_groupby, group_keys_In.
  rewrite df_top_filter. split.
  - intros (r & Hr & [= <- <-]).
    apply filter_In in Hr as [Hr Hb].
    apply andb_true_iff in Hb as [Hv Hi].
    apply isin_In in Hv, Hi. eauto 6.
  - intros (Hv & Hi & r & Hr & <- & <-).
    exists r. split; [|reflexivity].
    apply filter_In. split; [assumption|].
    now rewrite (proj2 (isin_In _ _) Hv), (proj2 (isin_In _ _) Hi).
Qed.

(** X6: the grouped output of analysis #3 has one bar for each pair of a top
    investor and a top industry that share a row of the expanded table, and
    no other: at most 50 bars, listed by investor and then by industry in
    ascending order.  The deal count of a bar is the number of distinct
    organizations in the rows of the pair, at least 1. *)
Theorem inv_ind_deals_bars (df : Table) :
  (forall v i,
      In (v, i) (index (Task3.inv_ind_deals df)) <->
      In v (Task3.top_investors df) /\ In i (Task3.top_industries df)
      /\ exists r, In r (Task3.df_exp df) /\ investor r = v /\ industry r = i)
  /\ StronglySorted pair_lt (index (Task3.inv_ind_deals df))
  /\ NoDup (index (Task3.inv_ind_deals df))
  /\ List.length (Task3.inv_ind_deals df) <= 50
  /\ forall v i c,
       In ((v, i), c) (Task3.inv_ind_deals df) ->
       c = nunique org (rows_of_pair v i (Task3.df_exp df)) /\ 1 <= c.
Proof.
  assert (Hin := inv_ind_deals_In df).
  assert (Hnd : NoDup (index (Task3.inv_ind_deals df))).
  { unfold Task3.inv_ind_deals. rewrite index_agg_groupby.
    apply group_keys_NoDup. }
  repeat apply conj.
  - exact Hin.
  - unfold Task3.inv_ind_deals. rewrite index_agg_groupby.
    eapply StronglySorted_impl; [apply pair_key_lt|].
    apply group_keys_sorted.
  - exact Hnd.
  - replace (List.length (Task3.inv_ind_deals df))
      with (List.length (index (Task3.inv_ind_deals df)))
      by (unfold index; apply length_map).
    transitivity (List.length (list_prod (Task3.top_investors df)
                                         (Task3.top_industries df))).
    + apply NoDup_incl_length; [exact Hnd|].
      intros [v i] Hvi. apply Hin in Hvi as (Hv & Hi & _).
      now apply in_prod.
    + rewrite length_prod.
      assert (H5 : List.length (Task3.top_investors df) <= 5)
        by apply (top_by_orgs_length investor org Task3.TOP_INVESTORS).
      assert (H10 : List.length (Task3.top_industries df) <= 10)
        by apply (top_by_orgs_length industry org Task3.TOP_INDUSTRIES).
      nia.
  - intros v i c Hc.
    assert (Hk : In (v, i) (index (Task3.inv_ind_deals df)))
      by (unfold index; now apply (in_map fst) in Hc).
    apply Hin in Hk as (Hv & Hi & r & Hr & Ev & Ei).
    unfold Task3.inv_ind_deals, agg, groupby in Hc.
    rewrite map_map in Hc. apply in_map_iff in Hc as (k & [= -> <-] & _).
    rewrite (@rows_of_pair_df_top df v i Hv Hi). split; [reflexivity|].
    unfold nunique.
    assert (Ho : In (org r) (nodup string_dec
                               (map org (rows_of_pair v i (Task3.df_exp df))))).
    { apply nodup_In, in_map. unfold rows_of_pair. apply filter_In.
      split; [assumption|].
      rewrite Ev, Ei, !String.eqb_refl. reflexivity. }
    destruct (nodup string_dec _); [contradiction | cbn; lia].
Qed.
End Task3Groups.

(** ** Analysis #4: the grouped money *)

Section Task4Bars.
Context {SV : SortValues}.

(** The money table of analysis #4 is the table of analysis #3 with the new
    column. *)
Lemma df_money_df_top (df : Table) :
  Task4.df_money df = Task4.with_money_per_investor (Task3.df_top df).
Proof.
  unfold Task4.df_money, Task4.restrict, Task4.with_money_per_investor.
  rewrite df_top_filter, filter_map_comm. reflexivity.
Qed.

Lemma group_rows_with_money (k : string * string) (rows : Table) :
  group_rows Task4.pair_key_of k (Task4.with_money_per_investor rows)
  = Task4.with_money_per_investor
      (group_rows (fun r => (investor r, industry r)) k rows).
Proof.
  unfold group_rows, Task4.with_money_per_investor.
  now rewrite filter_map_comm.
Qed.

Lemma shares_with_money (rows : Table) :
  shares (Task4.with_money_per_investor rows) = map Task4.share rows.
Proof.
  unfold shares, Task4.with_money_per_investor. now rewrite map_map.
Qed.

Lemma sum_per_pair_In (rows : list MoneyRow) (k : string * string)
  (x : fval) :
  In (k, x) (Task4.sum_per_pair rows) ->
  In k (group_keys Task4.pair_key_of rows)
  /\ x = fsum (map money_per_investor (group_rows Task4.pair_key_of k rows)).
Proof.
  unfold Task4.sum_per_pair, agg, groupby. rewrite map_map, in_map_iff.
  cbn [fst snd]. intros (k' & [= -> <-] & Hk). auto.
Qed.

(** X7: analysis #4 draws the same bars as analysis #3, and the height of a
    bar is a finite number, the sum of money divided by investor count (a
    zero count taken as 1) over the rows of the pair in the expanded
    table. *)
Theorem inv_ind_money_bars (df : Table) :
  index (Task4.inv_ind_money df) = index (Task3.inv_ind_deals df)
  /\ forall v i x,
       In ((v, i), x) (Task4.inv_ind_money df) ->
       exists q, x = Fin q
                 /\ (q == Qsum (map Task4.share
                                  (rows_of_pair v i (Task3.df_exp df))))%Q.
Proof.
  assert (Hidx : index (Task4.inv_ind_money df)
                 = index (Task3.inv_ind_deals df)).
  { unfold Task4.inv_ind_money, Task3.inv_ind_deals.
    rewrite sum_per_pair_index, index_agg_groupby, df_money_df_top.
    unfold Task4.with_money_per_investor. now rewrite group_keys_map. }
  split; [exact Hidx|].
  intros v i x Hx.
  assert (Hk : In (v, i) (index (Task3.inv_ind_deals df))).
  { rewrite <- Hidx. unfold index. now apply (in_map fst) in Hx. }
  apply inv_ind_deals_In in Hk as (Hv & Hi & _).
  unfold Task4.inv_ind_money in Hx.
  apply sum_per_pair_In in Hx as [_ ->].
  rewrite df_money_df_top, group_rows_with_money,
    (@rows_of_pair_df_top _ df v i Hv Hi).
  rewrite (money_column_shares (with_money_per_investor_shares _)),
    fsum_Fin_eq, shares_with_money.
  eexists. split; [reflexivity|].
  rewrite fold_left_Qplus. ring.
Qed.
End Task4Bars.

(** ** Grouping a table filtered by its labels *)

Lemma StronglySorted_filter {A : Type} (R : A -> A -> Prop) (p : A -> bool)
  (l : list A) :
  StronglySorted R l -> StronglySorted R (filter p l).
Proof.
  induction 1 as [|x l Hs IH Hx]; cbn; [constructor|].
  destruct (p x); [|exact IH].
  constructor; [exact IH|]. now apply Forall_filter.
Qed.

Section GroupFiltered.
Context {A K : Type} `{KeyLaws K}.
Variables (key : A -> K) (sel : K -> bool).

Lemma group_keys_filter (rows : list A) :
  group_keys key (filter (fun r => sel (key r)) rows)
  = filter sel (group_keys key rows).
Proof.
  apply sorted_unique.
  - apply group_keys_sorted.
  - apply StronglySorted_filter, group_keys_sorted.
  - intros k. rewrite filter_In, !group_keys_In. split.
    + intros (r & Hr & <-). apply filter_In in Hr as [Hr Hs]. eauto.
    + intros [(r & Hr & <-) Hs]. exists r. split; [|reflexivity].
      apply filter_In. auto.
Qed.

Lemma group_rows_filter (k : K) (rows : list A) :
  sel k = true ->
  group_rows key k (filter (fun r => sel (key r)) rows)
  = group_rows key k rows.
Proof.
  intros Hk. unfold group_rows. rewrite filter_filter.
  apply filter_ext. intros r.
  destruct (key_eqb (key r) k) eqn:E; [|apply andb_false_r].
  apply key_eqb_eq in E. now rewrite E, Hk.
Qed.

(** Grouping the rows whose label passes a test gives the groups whose label
    passes it, unchanged. *)
Lemma agg_groupby_filter {B : Type} (f : list A -> B) (rows : list A) :
  agg f (groupby key (filter (fun r => sel (key r)) rows))
  = filter (fun g => sel (fst g)) (agg f (groupby key rows)).
Proof.
  unfold agg, groupby. rewrite !map_map. cbn [fst snd].
  rewrite group_keys_filter, filter_map_comm. cbn [fst].
  apply map_ext_in. intros k Hk. apply filter_In in Hk as [_ Hk].
  now rewrite (group_rows_filter _ Hk).
Qed.
End GroupFiltered.

(** ** Analysis #5: what the recomputed ranking does *)

Section Task5Recompute.
Context {SV : SortValues}.

Lemma without_excluded_keys (df : Table) :
  List.length (group_keys (fun m => investor (base m))
                 (Task5.df_money_without_excluded df)) <= 5.
Proof.
  transitivity (List.length (Task3.top_investors df)).
  - apply NoDup_incl_length; [apply group_keys_NoDup|].
    intros v Hv. apply group_keys_In in Hv as (m & Hm & <-).
    now apply df_money_without_excluded_In in Hm.
  - apply (top_by_orgs_length investor org Task3.TOP_INVESTORS).
Qed.

Lemma top_investors_no_yc_all (df : Table) (m : MoneyRow) :
  In m (Task5.df_money_without_excluded df) ->
  In (investor (base m)) (Task5.top_investors_no_yc df).
Proof.
  intros Hm.
  apply (top_by_orgs_all (fun m => investor (base m)) (fun m => org (base m))
           (n := Task3.TOP_INVESTORS) _ m); [|exact Hm].
  apply without_excluded_keys.
Qed.

(** X8: in analysis #5 the recomputed ranking changes nothing.  It holds
    exactly the top investors of analysis #3 other than "Y Combinator" that
    have a row in the money table of analysis #4; filtering by it keeps every
    row; and the grouped output of analysis #5 is the grouped output of
    analysis #4 without the bars of "Y Combinator". *)
Theorem task5_is_task4_without_excluded (df : Table) :
  (forall v,
      In v (Task5.top_investors_no_yc df) <->
      v <> "Y Combinator"
      /\ exists m, In m (Task4.df_money df) /\ investor (base m) = v)
  /\ Task5.df_money_filtered df = Task5.df_money_without_excluded df
  /\ Task5.inv_ind_money_no_yc df
     = filter (fun g => negb (String.eqb (fst (fst g)) "Y Combinator"))
              (Task4.inv_ind_money df).
Proof.
  assert (Hall : Task5.df_money_filtered df
                 = Task5.df_money_without_excluded df).
  { unfold Task5.df_money_filtered. apply filter_all.
    intros m Hm. apply isin_In. now apply top_investors_no_yc_all. }
  repeat apply conj.
  - intros v. split.
    + intros Hv. unfold Task5.top_investors_no_yc in Hv.
      apply top_by_orgs_In in Hv as (m & Hm & <-).
      split; [now apply df_money_without_excluded_In in Hm|].
      apply filter_In in Hm as [Hm _]. eauto.
    + intros (Hyc & m & Hm & <-). apply top_investors_no_yc_all.
      apply filter_In. split; [assumption|].
      unfold Task5.not_excluded, Task5.EXCLUDED_INVESTORS.
      apply negb_true_iff, isin_not_In. intros [E|[]]. now apply Hyc.
  - exact Hall.
  - unfold Task5.inv_ind_money_no_yc. rewrite Hall.
    unfold Task5.df_money_without_excluded, Task4.inv_ind_money,
      Task4.sum_per_pair.
    rewrite <- (agg_groupby_filter Task4.pair_key_of
                  (fun k => negb (String.eqb (fst k) "Y Combinator"))).
    do 2 f_equal. apply filter_ext. intros m.
    unfold Task5.not_excluded, Task5.EXCLUDED_INVESTORS, isin.
    cbn [existsb fst Task4.pair_key_of]. now rewrite orb_false_r.
Qed.
End Task5Recompute.

(** ** Analysis #6: the averages *)

Section Task6Bars.
Context {SV : SortValues}.

End Task6Bars.

(** ** Analysis #2: the shape of the treemap *)

Section Task2Shape.
Context {SV : SortValues}.

Lemma funding_by_industry_index (df : Table) :
  Permutation (index (Task2.funding_by_industry df))
              (group_keys industry (df_industry df)).
Proof.
  unfold Task2.funding_by_industry, index.
  rewrite (Permutation_map fst (sort_values_perm _ _)).
  change (map fst ?s) with (index s). now rewrite index_agg_groupby.
Qed.

Lemma funding_by_industry_length (df : Table) :
  List.length (Task2.funding_by_industry df)
  = List.length (group_keys industry (df_industry df)).
Proof.
  rewrite <- (Permutation_length (funding_by_industry_index df)).
  unfold index. now rewrite length_map.
Qed.

(** X10: analysis #2 filters nothing: every label of the industry-expanded
    table, the empty label of a deal that lists no industry included, is a
    row of the sorted sums, valued at the money of all rows under it, in
    descending order.  The treemap keeps the first 80 of them and always
    ends with the "Other" row, so it has at most 81 rows; with no more than
    80 labels it shows them all and "Other" is exactly zero. *)
Theorem funding_treemap_shape (df : Table) :
  (forall r, In r (df_industry df) ->
             In (industry r, sum_money (group_rows industry (industry r)
                                          (df_industry df)))
                (Task2.funding_by_industry df))
  /\ (forall i a, In (i, a) (Task2.funding_by_industry df) ->
                  a = sum_money (group_rows industry i (df_industry df))
                  /\ exists r, In r (df_industry df) /\ industry r = i)
  /\ StronglySorted (fun x y : string * Q => (snd y <= snd x)%Q)
       (Task2.funding_by_industry df)
  /\ List.length (Task2.funding_treemap_df df)
     = S (Nat.min 80 (List.length (group_keys industry (df_industry df))))
  /\ (List.length (group_keys industry (df_industry df)) <= 80 ->
      Task2.funding_treemap_df df
      = Task2.funding_by_industry df ++ [("Other", 0%Q)]).
Proof.
  assert (Hin : forall i a,
    In (i, a) (Task2.funding_by_industry df) <->
    In i (group_keys industry (df_industry df))
    /\ a = sum_money (group_rows industry i (df_industry df))).
  { intros i a. unfold Task2.funding_by_industry.
    rewrite sort_values_In. unfold agg, groupby.
    rewrite map_map, in_map_iff. cbn [fst snd]. split.
    - intros (k & [= -> <-] & Hk). auto.
    - intros [Hk ->]. eauto. }
  repeat apply conj.
  - intros r Hr. apply Hin. split; [|reflexivity].
    apply group_keys_In. eauto.
  - intros i a Hia. apply Hin in Hia as [Hk ->].
    split; [reflexivity | now apply group_keys_In].
  - apply sort_values_sorted.
  - unfold Task2.funding_treemap_df, Task2.top_industries, Task2.other_row,
      head, Task2.TOP_N.
    rewrite length_app, length_firstn, funding_by_industry_length.
    cbn [List.length]. lia.
  - intros Hlen.
    unfold Task2.funding_treemap_df, Task2.top_industries, Task2.other_row,
      Task2.other_industries, head, iloc_from, Task2.TOP_N.
    rewrite firstn_all2, skipn_all2
      by (rewrite funding_by_industry_length; exact Hlen).
    reflexivity.
Qed.

(** X11: nothing keeps the label of the appended row apart from the labels
    of the data: when an industry named "Other" is among the first 80, the
    treemap has two rows labelled "Other". *)
Theorem treemap_other_label_twice (df : Table) :
  In "Other" (index (Task2.top_industries df)) ->
  count_occ string_dec (index (Task2.funding_treemap_df df)) "Other" = 2.
Proof.
  intros Hin.
  unfold Task2.funding_treemap_df, Task2.other_row, index.
  rewrite map_app, count_occ_app. cbn [map fst count_occ].
  destruct (string_dec "Other" "Other") as [_|N]; [|now destruct N].
  assert (Hnd : NoDup (map fst (Task2.top_industries df))).
  { unfold Task2.top_industries, head. apply NoDup_map_firstn.
    eapply Permutation_NoDup;
      [apply Permutation_sym, funding_by_industry_index|].
    apply group_keys_NoDup. }
  rewrite (proj1 (NoDup_count_occ' string_dec _) Hnd "Other" Hin).
  reflexivity.
Qed.
End Task2Shape.

Lemma treemap_other_label_twice_witness :
  count_occ string_dec
    (index (Task2.funding_treemap_df (SV := stable_sort_values)
              other_named_deals))
    "Other" = 2.
Proof.
  apply (@treemap_other_label_twice stable_sort_values other_named_deals).
  vm_compute. right. left. reflexivity.
Defined.

(** ** Analyses #3 and #6 and the order of the rows *)

Lemma nunique_perm {A : Type} (o : A -> string) (l l' : list A) :
  Permutation l l' -> nunique o l = nunique o l'.
Proof.
  intros P. unfold nunique. apply Permutation_length.
  apply NoDup_Permutation; try apply NoDup_nodup.
  intros x. rewrite !nodup_In. split; apply Permutation_in;
    [|apply Permutation_sym]; now apply Permutation_map.
Qed.

Lemma agg_nunique_perm {A K : Type} `{KeyLaws K} (key : A -> K)
  (o : A -> string) (rows rows' : list A) :
  Permutation rows rows' ->
  agg (nunique o) (groupby key rows) = agg (nunique o) (groupby key rows').
Proof.
  intros P. unfold agg, groupby. rewrite !map_map. cbn [fst snd].
  rewrite (group_keys_perm key P). apply map_ext. intros k.
  f_equal. apply nunique_perm. unfold group_rows.
  now apply Permutation_filter.
Qed.

Lemma df_exp_perm (df df' : Table) :
  Permutation df df' -> Permutation (Task3.df_exp df) (Task3.df_exp df').
Proof.
  intros P. unfold Task3.df_exp, explode_investors, explode_industries,
    assign_investors, assign_industries.
  apply Permutation_filter, Permutation_flat_map, Permutation_flat_map.
  now do 2 apply Permutation_map.
Qed.

Section RowOrder.
Context {SV : SortValues}.

Lemma top_by_orgs_perm {A : Type} (key o : A -> string) (n : nat)
  (rows rows' : list A) :
  Permutation rows rows' ->
  Task3.top_by_orgs key o n rows = Task3.top_by_orgs key o n rows'.
Proof.
  intros P. unfold Task3.top_by_orgs. now rewrite (agg_nunique_perm key o P).
Qed.

(** X12: the rankings of analyses #3 and #6 and the grouped output of
    analysis #3 do not depend on the order of the rows of the loaded table:
    they are computed from counts of distinct organizations per label, taken
    in ascending label order. *)
Theorem distinct_org_analyses_row_order_irrelevant (df df' : Table) :
  Permutation df df' ->
  Task3.top_investors df = Task3.top_investors df'
  /\ Task3.top_industries df = Task3.top_industries df'
  /\ Task3.inv_ind_deals df = Task3.inv_ind_deals df'
  /\ Task6.top_industries df = Task6.top_industries df'.
Proof.
  intros P.
  assert (Hexp := df_exp_perm P).
  assert (Hinv : Task3.top_investors df = Task3.top_investors df')
    by now apply top_by_orgs_perm.
  assert (Hind : Task3.top_industries df = Task3.top_industries df')
    by now apply top_by_orgs_perm.
  repeat apply conj; try assumption.
  - unfold Task3.inv_ind_deals. apply agg_nunique_perm.
    unfold Task3.df_top, Task3.df_top_inv. rewrite Hinv, Hind.
    now do 2 apply Permutation_filter.
  - apply top_by_orgs_perm, Permutation_filter, df_industry_perm, P.
Qed.
End RowOrder.

Lemma distinct_org_analyses_row_order_irrelevant_witness :
  Task3.inv_ind_deals (SV := stable_sort_values) software_then_ai
  = Task3.inv_ind_deals (SV := stable_sort_values) ai_then_software.
Proof.
  refine (proj1 (proj2 (proj2
            (@distinct_org_analyses_row_order_irrelevant stable_sort_values
               software_then_ai ai_then_software _)))).
  apply perm_swap.
Defined.

(** ** What the two explodes keep *)

Lemma nunique_same_values {A B : Type} (o : A -> string) (o' : B -> string)
  (l : list A) (l' : list B) :
  (forall x, In x (map o l) <-> In x (map o' l')) ->
  nunique o l = nunique o' l'.
Proof.
  intros Hsame. unfold nunique. apply Permutation_length.
  apply NoDup_Permutation; try apply NoDup_nodup.
  intros x. rewrite !nodup_In. apply Hsame.
Qed.

Lemma df_industry_cons (r : Row string string) (df : Table) :
  df_industry (r :: df) = df_industry [r] ++ df_industry df.
Proof. apply (df_industry_app [r] df). Qed.

Lemma expand_investors_cons (r : Row string string) (t : Table) :
  expand_investors (r :: t) = expand_investors [r] ++ expand_investors t.
Proof. apply (expand_investors_app [r] t). Qed.

Lemma df_industry_length (df : Table) :
  List.length (df_industry df)
  = list_sum (map (fun r => List.length (Task3.listed_industries r)) df).
Proof.
  induction df as [|r df IH]; [reflexivity|].
  rewrite df_industry_cons, length_app, IH, df_industry_single, length_map.
  reflexivity.
Qed.

Lemma df_industry_orgs (df : Table) (x : string) :
  In x (map org (df_industry df)) <-> In x (map org df).
Proof.
  induction df as [|r df IH]; [reflexivity|].
  rewrite df_industry_cons, map_app, in_app_iff, IH.
  cbn [map In]. rewrite df_industry_single, map_map.
  unfold Str.pieces. cbn [map In]. rewrite in_map_iff.
  change (org (set_industries _ r)) with (org r).
  split; [|tauto]. intros [[E|(i & E & _)]|Hx]; auto.
Qed.

Lemma expand_investors_length (t : Table) :
  List.length t <= List.length (expand_investors t).
Proof.
  induction t as [|r t IH]; [reflexivity|].
  rewrite expand_investors_cons, length_app, expand_investors_single,
    length_map.
  unfold Str.pieces. cbn [List.length]. lia.
Qed.

Lemma expand_investors_orgs (t : Table) (x : string) :
  In x (map org (expand_investors t)) <-> In x (map org t).
Proof.
  induction t as [|r t IH]; [reflexivity|].
  rewrite expand_investors_cons, map_app, in_app_iff, IH.
  cbn [map In]. rewrite expand_investors_single, map_map.
  unfold Str.pieces. cbn [map In]. rewrite in_map_iff.
  change (org (set_investors _ r)) with (org r).
  split; [|tauto]. intros [[E|(i & E & _)]|Hx]; auto.
Qed.

Lemma listed_industries_at_least_one (df : Table) :
  List.length df
  <= list_sum (map (fun r => List.length (Task3.listed_industries r)) df).
Proof.
  induction df as [|r df IH]; [reflexivity|].
  cbn [map List.length].
  change (list_sum (?x :: ?l)) with (x + list_sum l).
  unfold Task3.listed_industries at 1.
  unfold Str.pieces. cbn [List.length]. lia.
Qed.

(** X13: exploding never loses a deal or an organization.  The
    industry-expanded table has one row per listed industry of every deal, so
    at least as many rows as the loaded table, and the investor-expanded
    table at least as many again; both hold the same organizations as the
    loaded table, hence the same number of distinct organizations. *)
Theorem explode_loses_nothing (df : Table) :
  List.length (df_industry df)
  = list_sum (map (fun r => List.length (Task3.listed_industries r)) df)
  /\ List.length df <= List.length (df_industry df)
  /\ List.length (df_industry df) <= List.length (df_investor df)
  /\ (forall x, In x (map org (df_industry df)) <-> In x (map org df))
  /\ (forall x, In x (map org (df_investor df)) <-> In x (map org df))
  /\ nunique org (df_industry df) = nunique org df
  /\ nunique org (df_investor df) = nunique org df.
Proof.
  assert (Hinv : forall x, In x (map org (df_investor df))
                           <-> In x (map org df)).
  { intros x. unfold df_investor.
    change (explode_investors (assign_investors Str.split ?t))
      with (expand_investors t).
    now rewrite expand_investors_orgs, df_industry_orgs. }
  repeat apply conj.
  - apply df_industry_length.
  - rewrite df_industry_length. apply listed_industries_at_least_one.
  - apply (expand_investors_length (df_industry df)).
  - apply df_industry_orgs.
  - exact Hinv.
  - apply nunique_same_values, df_industry_orgs.
  - apply nunique_same_values, Hinv.
Qed.

(** ** The expanded table and the preprocessing tables *)

Lemma df_investor_app (a b : Table) :
  df_investor (a ++ b) = df_investor a ++ df_investor b.
Proof.
  unfold df_investor.
  change (explode_investors (assign_investors Str.split ?t))
    with (expand_investors t).
  now rewrite df_industry_app, expand_investors_app.
Qed.

Lemma df_investor_single (r : Row string string) :
  df_investor [r]
  = flat_map (fun i => map (fun v => mkRow (organization_name r) i v
                                           (money_raised r)
                                           (investor_count_computed r))
                           (Str.pieces (Str.split (investor_names r))))
             (Task3.listed_industries r).
Proof.
  unfold df_investor. rewrite df_industry_single.
  unfold explode_investors, assign_investors, Task3.listed_industries.
  rewrite !flat_map_map. apply flat_map_ext. intros i. reflexivity.
Qed.

(** X15: the expanded table of analyses #3 to #5 is the investor-expanded
    table of the preprocessing step, less its rows with a blank investor
    name, once the cells that are "Not Mentioned" as a whole have been
    emptied. *)
Theorem df_exp_is_filtered_df_investor (df : Table) :
  Task3.df_exp df
  = filter Task3.named_investor
      (df_investor
         (assign_investors (Str.replace_cell "Not Mentioned" "") df)).
Proof.
  induction df as [|r df IH]; [reflexivity|].
  rewrite df_exp_cons, IH. unfold assign_investors. cbn [map].
  change (?x :: map ?g df) with ([x] ++ map g df).
  rewrite df_investor_app, filter_app. f_equal.
  rewrite df_exp_single, df_investor_single, filter_flat_map.
  apply flat_map_ext. intros i. rewrite filter_map_comm. reflexivity.
Qed.

Lemma df_exp_origin (df : Table) (x : Row string string) :
  In x (Task3.df_exp df) ->
  exists r, In r df
            /\ organization_name x = organization_name r
            /\ money_raised x = money_raised r
            /\ investor_count_computed x = investor_count_computed r
            /\ In (industry x) (Task3.listed_industries r)
            /\ In (investor x) (Task3.listed_investors r).
Proof.
  induction df as [|r df IH]; [intros []|].
  rewrite df_exp_cons, in_app_iff. intros [Hx|Hx].
  - rewrite df_exp_single_prod in Hx.
    apply in_map_iff in Hx as ([i v] & <- & Hp).
    apply in_prod_iff in Hp as [Hi Hv].
    exists r. cbn. auto 7.
  - destruct (IH Hx) as (r' & Hr' & H'). exists r'. split; [now right|].
    exact H'.
Qed.

(** X16: a deal puts one row in the expanded table of analyses #3 to #5 for
    every pair of a listed industry and a named investor, all with the deal's
    organization, money and investor count, and no row at all exactly when
    it names no investor. *)
Theorem df_exp_rows_per_deal (df : Table) (r : Row string string) :
  List.length (Task3.df_exp df)
  = list_sum (map (fun r => List.length (Task3.listed_industries r)
                            * List.length (Task3.listed_investors r)) df)
  /\ (Task3.df_exp [r] = [] <-> Task3.listed_investors r = [])
  /\ forall x, In x (Task3.df_exp df) ->
       exists r', In r' df
                  /\ organization_name x = organization_name r'
                  /\ money_raised x = money_raised r'
                  /\ investor_count_computed x = investor_count_computed r'
                  /\ In (industry x) (Task3.listed_industries r')
                  /\ In (investor x) (Task3.listed_investors r').
Proof.
  split; [|split].
  - induction df as [|r0 df IH]; [reflexivity|].
    rewrite df_exp_cons, length_app, IH, df_exp_single_prod, length_map,
      length_prod.
    reflexivity.
  - rewrite df_exp_single_prod. split.
    + intros E. apply (f_equal (@List.length _)) in E.
      rewrite length_map, length_prod in E.
      unfold Task3.listed_industries, Str.pieces in E.
      cbn [List.length] in E.
      destruct (Task3.listed_investors r); [reflexivity | cbn in E; lia].
    + intros E. rewrite E. apply length_zero_iff_nil.
      rewrite length_map, length_prod. cbn [List.length]. lia.
  - apply df_exp_origin.
Qed.

(** ** Signs and totals of the grouped money *)

Lemma Qsum_nonneg (l : list Q) :
  Forall (fun q => (0 <= q)%Q) l -> (0 <= Qsum l)%Q.
Proof.
  induction 1 as [|q l Hq _ IH]; [apply Qle_refl|].
  rewrite Qsum_cons.
  setoid_replace 0%Q with (0 + 0)%Q by ring. now apply Qplus_le_compat.
Qed.

Lemma share_nonneg (r : Row string string) :
  (0 <= money_raised r)%Q -> (0 <= investor_count_computed r)%Z ->
  (0 <= Task4.share r)%Q.
Proof.
  intros Hm Hc. unfold Task4.share, Qdiv.
  apply Qmult_le_0_compat; [exact Hm|].
  apply Qinv_le_0_compat. unfold Task4.replace_zero.
  change 0%Q with (inject_Z 0). rewrite <- Zle_Qle.
  destruct (Z.eqb_spec (investor_count_computed r) 0); lia.
Qed.

Lemma sum_per_pair_nonneg (rows : list MoneyRow) (k : string * string)
  (x : fval) :
  Forall (fun m => money_per_investor m = Fin (Task4.share (base m))
                   /\ (0 <= Task4.share (base m))%Q) rows ->
  In (k, x) (Task4.sum_per_pair rows) ->
  exists q, x = Fin q /\ (0 <= q)%Q.
Proof.
  intros Hrows Hx. apply sum_per_pair_In in Hx as [_ ->].
  set (g := group_rows Task4.pair_key_of k rows).
  assert (Hg : Forall (fun m => money_per_investor m
                                = Fin (Task4.share (base m))
                                /\ (0 <= Task4.share (base m))%Q) g)
    by (apply Forall_filter, Hrows).
  rewrite (@money_column_shares g), fsum_Fin_eq
    by (eapply Forall_impl; [|exact Hg]; now intros m [E _]).
  eexists. split; [reflexivity|].
  rewrite fold_left_Qplus, Qplus_0_l. apply Qsum_nonneg.
  unfold shares. apply Forall_map.
  eapply Forall_impl; [|exact Hg]. now intros m [_ L].
Qed.

Section MoneySigns.
Context {SV : SortValues}.

Lemma df_money_nonneg (df : Table) :
  (forall r, In r df -> (0 <= money_raised r)%Q
                        /\ (0 <= investor_count_computed r)%Z) ->
  Forall (fun m => money_per_investor m = Fin (Task4.share (base m))
                   /\ (0 <= Task4.share (base m))%Q)
         (Task4.df_money df).
Proof.
  intros Hdf. apply Forall_forall. intros m Hm.
  apply df_money_In in Hm as (_ & _ & Hb & Hq).
  split; [now rewrite Hq, per_investor_share|].
  apply df_exp_origin in Hb as (r & Hr & _ & Em & Ec & _).
  destruct (Hdf r Hr) as [Hmoney Hcount].
  apply share_nonneg; [now rewrite Em | now rewrite Ec].
Qed.

(** X17: when no deal of the table has negative money or a negative investor
    count, every bar of analyses #4 and #5 is a finite, non-negative
    amount. *)
Theorem bars_nonnegative (df : Table) (k : string * string) (x : fval) :
  (forall r, In r df -> (0 <= money_raised r)%Q
                        /\ (0 <= investor_count_computed r)%Z) ->
  In (k, x) (Task4.inv_ind_money df)
  \/ In (k, x) (Task5.inv_ind_money_no_yc df) ->
  exists q, x = Fin q /\ (0 <= q)%Q.
Proof.
  intros Hdf [Hx|Hx].
  - eapply sum_per_pair_nonneg; [|exact Hx]. now apply df_money_nonneg.
  - eapply sum_per_pair_nonneg; [|exact Hx].
    unfold Task5.df_money_filtered, Task5.df_money_without_excluded.
    now do 2 apply Forall_filter; apply df_money_nonneg.
Qed.

End MoneySigns.

Lemma bars_nonnegative_witness :
  exists q, Fin (250 # 2) = Fin q /\ (0 <= q)%Q.
Proof.
  apply (@bars_nonnegative stable_sort_values counted_deals
           ("X", "AI") (Fin (250 # 2))).
  - intros r [<-|[<-|[]]]; split; vm_compute; discriminate.
  - left. vm_compute. left. reflexivity.
Defined.

(** ** Missing cells *)

(** X19: what [load_data] makes of a missing cell.  A deal whose industries
    cell is missing stays in the industry-expanded table as the one row it
    was, under the empty label; a deal whose investors cell is missing puts no
    row in the expanded table of analyses #3 to #5. *)
Theorem load_data_missing_cells
  (pre post : DataFrame (option string) (option string))
  (o : string) (i v : option string) (m : Q) (c : Z) :
  List.length (load_data (pre ++ mkRow o i v m c :: post))
  = S (List.length pre + List.length post)
  /\ df_industry (load_data (pre ++ mkRow o None v m c :: post))
     = df_industry (load_data pre)
       ++ [mkRow o EmptyString (fillna v) m c]
       ++ df_industry (load_data post)
  /\ Task3.df_exp (load_data (pre ++ mkRow o i None m c :: post))
     = Task3.df_exp (load_data (pre ++ post)).
Proof.
  assert (Happ : forall a b, load_data (a ++ b) = load_data a ++ load_data b).
  { intros a b. unfold load_data, assign_investors, assign_industries.
    now rewrite !map_app. }
  repeat apply conj.
  - unfold load_data, assign_investors, assign_industries.
    rewrite !length_map, length_app. cbn [List.length]. lia.
  - change (?x :: post) with ([x] ++ post).
    rewrite !Happ, !df_industry_app. reflexivity.
  - change (?x :: post) with ([x] ++ post).
    rewrite !Happ, !df_exp_app. f_equal.
    change (load_data [mkRow o i None m c])
      with [mkRow o (fillna i) EmptyString m c].
    rewrite df_exp_single. unfold Task3.listed_investors.
    cbn [investor_names].
    change (filter Task3.named _) with (@nil string).
    cbn [map]. rewrite flat_map_nil. reflexivity.
Qed.


(** ** Analyses #1 and #6 on tables without repeated organizations *)

Lemma NoDup_const_map {A B : Type} (b : B) (l : list A) :
  List.length l <= 1 -> NoDup (map (fun _ => b) l).
Proof.
  destruct l as [|x [|y l]]; cbn; intros Hl.
  - constructor.
  - repeat constructor. intros [].
  - lia.
Qed.

Lemma NoDup_map_filter {A B : Type} (g : A -> B) (p : A -> bool)
  (l : list A) :
  NoDup (map g l) -> NoDup (map g (filter p l)).
Proof.
  induction l as [|x l IH]; cbn; intros Hl; [constructor|].
  apply NoDup_cons_iff in Hl as [Hx Hl].
  destruct (p x); [|now apply IH].
  cbn. constructor; [|now apply IH].
  intros Hin. apply Hx. apply in_map_iff in Hin as (y & E & Hy).
  apply filter_In in Hy as [Hy _]. apply in_map_iff. eauto.
Qed.

(** With organizations that do not repeat and deals that list no industry
    twice, no organization appears twice under one industry label. *)
Lemma group_orgs_NoDup (df : Table) (i : string) :
  NoDup (map org df) ->
  (forall r, In r df -> NoDup (Task3.listed_industries r)) ->
  NoDup (map org (group_rows industry i (df_industry df))).
Proof.
  induction df as [|r df IH]; intros Hnd Hlisted; [constructor|].
  cbn [map] in Hnd. apply NoDup_cons_iff in Hnd as [Hfresh Hnd].
  rewrite df_industry_cons. unfold group_rows. rewrite filter_app, map_app.
  apply NoDup_app.
  - rewrite df_industry_single, filter_map_comm, map_map.
    change (fun x => org (set_industries x r)) with (fun _ : string => org r).
    apply NoDup_const_map.
    cbn [key_eqb string_key industry organization_industries set_industries].
    rewrite (filter_ext _ (String.eqb i))
      by (intros x; apply String.eqb_sym).
    rewrite length_filter_eqb.
    apply NoDup_count_occ. apply Hlisted. now left.
  - apply IH; [assumption|]. intros r' Hr'. apply Hlisted. now right.
  - intros x Hx1 Hx2.
    apply in_map_iff in Hx1 as (y1 & <- & Hy1).
    apply filter_In in Hy1 as [Hy1 _].
    apply df_industry_org in Hy1 as (r1 & [<-|[]] & E1).
    apply in_map_iff in Hx2 as (y2 & E2 & Hy2).
    apply filter_In in Hy2 as [Hy2 _].
    apply df_industry_org in Hy2 as (r2 & Hr2 & E3).
    apply Hfresh. apply in_map_iff. exists r2. split; [|assumption].
    unfold org in *. congruence.
Qed.

Section CountsAndOrgs.
Context {SV : SortValues}.

(** X20: on a table whose organizations do not repeat and whose deals list no
    industry twice, the number of distinct organizations under an industry is
    its number of rows, so analysis #6 ranks exactly the industries that
    analysis #1 ranks, in the same order. *)
Theorem task6_ranking_is_task1_ranking (df : Table) :
  NoDup (map org df) ->
  (forall r, In r df -> NoDup (Task3.listed_industries r)) ->
  Task6.top_industries df = index (Task1.deals_by_industry df).
Proof.
  intros Hnd Hlisted.
  unfold Task6.top_industries, Task3.top_by_orgs, Task1.deals_by_industry,
    Task6.TOP_INDUSTRIES.
  do 3 f_equal. unfold agg, groupby. rewrite !map_map. cbn [fst snd].
  apply map_ext. intros i. f_equal.
  unfold nunique, count. f_equal. apply nodup_fixed_point.
  unfold group_rows. rewrite filter_filter.
  rewrite (filter_ext _ (fun r => key_eqb (industry r) i
                                  && nonempty_industry r))
    by (intros r; apply andb_comm).
  rewrite <- filter_filter. apply NoDup_map_filter.
  now apply group_orgs_NoDup.
Qed.
End CountsAndOrgs.

Lemma task6_ranking_is_task1_ranking_witness :
  Task6.top_industries (SV := stable_sort_values) scenario
  = index (Task1.deals_by_industry (SV := stable_sort_values) scenario).
Proof.
  apply (@task6_ranking_is_task1_ranking stable_sort_values scenario).
  - repeat constructor; cbn; intuition discriminate.
  - intros r [<-|[<-|[]]]; vm_compute;
      repeat constructor; cbn; intuition discriminate.
Defined.

(** * The recomputed ranking of analysis #5 at six investors *)

Section Task5Slip.
Context {SV : SortValues}.

Lemma six_deals_antler_last (w : string) :
  In w ["Y Combinator"; "Techstars"; "Plug and Play"; "Pioneer Fund";
        "Team Ignite"] ->
  In "Antler" (Task3.top_investors six_deals) ->
  In w (Task3.top_investors six_deals).
Proof.
  intros Hw Hant.
  destruct (in_dec string_dec w (Task3.top_investors six_deals))
    as [Hin|Hout]; [exact Hin|].
  exfalso.
  assert (Hr : In (deal "O1" "AI" w 600%Q 6%Z) (Task3.df_exp six_deals)).
  { cbn in Hw. decompose [or] Hw; try contradiction; subst w;
      vm_compute; tauto. }
  pose proof (@top_by_orgs_dominates _ _ investor org Task3.TOP_INVESTORS
                (Task3.df_exp six_deals) "Antler"
                (deal "O1" "AI" w 600%Q 6%Z) Hant Hr Hout) as Hle.
  cbn in Hw. decompose [or] Hw; try contradiction; subst w;
    vm_compute in Hle; lia.
Qed.

(** C1 at six investors that back 6, 5, 4, 3, 2 and 1 organizations, whatever
    the sort routine: once "Y Combinator" is removed from the expanded table,
    "Antler" is one of the five investors with the most organizations, but
    the ranking the script recomputes does not contain it, because it is
    taken over the rows of the first top 5 only. *)
Theorem top_investors_no_yc_misses_the_sixth_investor :
  In "Antler" (Task5.top_investors_no_yc_over_all_investors six_deals)
  /\ ~ In "Antler" (Task5.top_investors_no_yc six_deals).
Proof.
  split.
  - set (m := mkMoneyRow (deal "O1" "AI" "Antler" 600%Q 6%Z)
                (Task4.per_investor (deal "O1" "AI" "Antler" 600%Q 6%Z))).
    apply (top_by_orgs_all (fun m => investor (base m))
             (fun m => org (base m)) (n := Task3.TOP_INVESTORS) _ m).
    + vm_compute. lia.
    + vm_compute. tauto.
  - intros Hin. unfold Task5.top_investors_no_yc in Hin.
    apply top_by_orgs_In in Hin as (m & Hm & Ev).
    apply df_money_without_excluded_In in Hm as [_ Hant].
    rewrite Ev in Hant.
    assert (Hincl : incl ["Antler"; "Y Combinator"; "Techstars";
                          "Plug and Play"; "Pioneer Fund"; "Team Ignite"]
                         (Task3.top_investors six_deals)).
    { intros w [<-|Hw]; [exact Hant|].
      now apply six_deals_antler_last. }
    apply NoDup_incl_length in Hincl.
    + pose proof (top_by_orgs_length investor org Task3.TOP_INVESTORS
                    (Task3.df_exp six_deals)) as Hlen.
      unfold Task3.top_investors in Hincl. cbn [List.length] in Hincl.
      unfold Task3.TOP_INVESTORS in *. lia.
    + repeat constructor; cbn; intuition discriminate.
Qed.
End Task5Slip.

(** ** C7: what an explode does to a row *)

(** A non-empty list of strings without separator whose join is [s] is the
    list of the pieces of [s]. *)
Lemma pieces_unique (s : string) (l : list string) :
  l <> [] ->
  (forall p a b, In p l -> p <> (a ++ ", " ++ b)%string) ->
  Str.join l = s ->
  Str.pieces (Str.split s) = l.
Proof.
  intros Hne Hl <-. destruct l as [|h t]; [contradiction|].
  rewrite split_join_pieces; [reflexivity|].
  apply Forall_forall. intros p Hp.
  destruct (has_sep p) eqn:E; [|reflexivity].
  apply has_sep_inv in E as (a & b & E).
  now destruct (Hl p a b Hp).
Qed.

Lemma pieces_no_sep (s p a b : string) :
  In p (Str.pieces (Str.split s)) -> p <> (a ++ ", " ++ b)%string.
Proof.
  intros Hp. apply no_sep_neq.
  pose proof (proj1 (split_pieces_no_sep s)) as Hs.
  rewrite Forall_forall in Hs. now apply Hs.
Qed.

(** C7: in every table, each of the two explodes replaces a row, in place, by
    one row per piece of the comma-space split of its cell; the pieces fill
    the exploded column in order and every produced row keeps the other
    columns of the row it comes from.  The pieces are what lies between the
    separators: joined with ", " they give the cell back, none of them
    contains ", ", and they are the only non-empty list of such strings
    with that join.  The split of the empty string is the one empty piece,
    so a row that lists no industry stays as the one row it was. *)
Theorem explode_keeps_other_columns (pre post : Table)
  (r : Row string string) :
  (df_industry (pre ++ r :: post)
   = df_industry pre ++ df_industry [r] ++ df_industry post
   /\ map industry (df_industry [r])
      = Str.pieces (Str.split (organization_industries r))
   /\ Forall (fun x => same_but_industries x r) (df_industry [r]))
  /\ (expand_investors (pre ++ r :: post)
      = expand_investors pre ++ expand_investors [r] ++ expand_investors post
      /\ map investor (expand_investors [r])
         = Str.pieces (Str.split (investor_names r))
      /\ Forall (fun x => same_but_investors x r) (expand_investors [r]))
  /\ df_investor (pre ++ r :: post)
     = expand_investors (df_industry (pre ++ r :: post))
  /\ (Str.join (map industry (df_industry [r])) = organization_industries r
      /\ (forall p a b,
             In p (map industry (df_industry [r])) ->
             p <> (a ++ ", " ++ b)%string)
      /\ forall l,
           l <> [] ->
           (forall p a b, In p l -> p <> (a ++ ", " ++ b)%string) ->
           Str.join l = organization_industries r ->
           map industry (df_industry [r]) = l)
  /\ (Str.join (map investor (expand_investors [r])) = investor_names r
      /\ (forall p a b,
             In p (map investor (expand_investors [r])) ->
             p <> (a ++ ", " ++ b)%string)
      /\ forall l,
           l <> [] ->
           (forall p a b, In p l -> p <> (a ++ ", " ++ b)%string) ->
           Str.join l = investor_names r ->
           map investor (expand_investors [r]) = l)
  /\ Str.pieces (Str.split "") = [""]
  /\ (forall (o v : string) (m : Q) (c : Z),
         df_industry [mkRow o "" v m c] = [mkRow o "" v m c])
  /\ forall (o v : string) (m : Q) (c : Z),
       df_industry [mkRow o "AI, Software" v m c]
       = [mkRow o "AI" v m c; mkRow o "Software" v m c].
Proof.
  assert (Hind : map industry (df_industry [r])
                 = Str.pieces (Str.split (organization_industries r)))
    by (rewrite df_industry_single, map_map; apply map_id).
  assert (Hinv : map investor (expand_investors [r])
                 = Str.pieces (Str.split (investor_names r)))
    by (rewrite expand_investors_single, map_map; apply map_id).
  split; [|split; [|split; [|split; [|split; [|split; [|split]]]]]].
  - split; [|split].
    + rewrite df_industry_app. f_equal. apply (df_industry_app [r] post).
    + exact Hind.
    + rewrite df_industry_single. apply Forall_forall. intros x Hx.
      apply in_map_iff in Hx as (i & <- & _).
      repeat split.
  - split; [|split].
    + rewrite expand_investors_app. f_equal.
      apply (expand_investors_app [r] post).
    + exact Hinv.
    + rewrite expand_investors_single. apply Forall_forall. intros x Hx.
      apply in_map_iff in Hx as (v & <- & _).
      repeat split.
  - reflexivity.
  - rewrite Hind. split; [apply split_join|]. split.
    + intros p a b. apply pieces_no_sep.
    + intros l. apply pieces_unique.
  - rewrite Hinv. split; [apply split_join|]. split.
    + intros p a b. apply pieces_no_sep.
    + intros l. apply pieces_unique.
  - reflexivity.
  - reflexivity.
  - reflexivity.
Qed.

(** ** C8: collapsing the industry-expanded table *)

(** The group of an organization that has one deal in the table is the rows
    of that deal, whatever rows the other organizations have. *)
Lemma group_rows_of_row (pre post : Table) (r : Row string string) :
  (forall x, In x (pre ++ post) ->
             organization_name x <> organization_name r) ->
  group_rows org (organization_name r) (df_industry (pre ++ r :: post))
  = df_industry [r].
Proof.
  intros Hother.
  assert (Hnone : forall t : Table,
    (forall x, In x t -> organization_name x <> organization_name r) ->
    filter (fun x => key_eqb (org x) (organization_name r)) (df_industry t)
    = []).
  { intros t Ht. apply filter_none. intros x Hx.
    apply df_industry_org in Hx as (r' & Hr' & E).
    apply String.eqb_neq. unfold org. rewrite E. now apply Ht. }
  change (r :: post) with ([r] ++ post).
  rewrite !df_industry_app. unfold group_rows. rewrite !filter_app.
  rewrite (Hnone pre), (Hnone post), app_nil_r.
  - cbn [app]. apply filter_all. intros x Hx.
    apply df_industry_org in Hx as (r' & [<-|[]] & E).
    apply String.eqb_eq. exact E.
  - intros x Hx. apply Hother, in_or_app. now right.
  - intros x Hx. apply Hother, in_or_app. now left.
Qed.

(** C8: the organization name being the key of a deal, take a deal [r] whose
    organization has no other row in the table.  Re-grouping the
    industry-expanded table on the organization name and re-joining the
    labels of the group with ", " gives back the industries string the deal
    was loaded with, character for character, and so a string that lists
    the same labels. *)
Theorem collapse_rebuilds_industries (pre post : Table)
  (r : Row string string) :
  (forall x, In x (pre ++ post) ->
             organization_name x <> organization_name r) ->
  exists s,
    lookup (organization_name r) (collapse (df_industry (pre ++ r :: post)))
    = Some s
    /\ s = organization_industries r
    /\ same_labels s (organization_industries r).
Proof.
  intros Hother. exists (organization_industries r).
  split; [|split; [reflexivity | intros x; reflexivity]].
  assert (Hx : In (set_industries
                     (fst (Str.split (organization_industries r))) r)
                  (df_industry (pre ++ r :: post))).
  { change (r :: post) with ([r] ++ post).
    rewrite !df_industry_app, df_industry_single.
    apply in_or_app. right. apply in_or_app. left. now left. }
  pose proof (lookup_agg_groupby
                (fun g => Str.join (map industry g)) org _ _ Hx) as L.
  change (org (set_industries _ r)) with (organization_name r) in L.
  unfold collapse. rewrite L. f_equal.
  cbv beta. rewrite (group_rows_of_row pre post r Hother).
  rewrite df_industry_single, map_map.
  cbn [industry organization_industries set_industries].
  rewrite map_id. apply split_join.
Qed.

Lemma collapse_rebuilds_industries_witness :
  exists s,
    lookup "A" (collapse (df_industry rounds_around)) = Some s
    /\ s = "AI, Software"
    /\ same_labels s "AI, Software".
Proof.
  apply (@collapse_rebuilds_industries
           [deal "B" "AI" "X" 10%Q 1%Z]
           [deal "B" "Health Care" "Y" 20%Q 1%Z]
           (deal "A" "AI, Software" "X" 100%Q 1%Z)).
  intros x [<-|[<-|[]]]; discriminate.
Defined.

(** ** C10: what one deal adds to the grouped money *)







(** *** The groups of a table hold each row once *)

Section Partition.
Context {A K : Type} `{KeyLaws K}.
Variable key : A -> K.




End Partition.







Section OneDealFacts.
Context {SV : SortValues}.




End OneDealFacts.


Example inv_ind_money_no_yc_scenario :
  Task5.inv_ind_money_no_yc (SV := stable_sort_values) scenario
  = [ (("X", "AI"), Fin (0 + (100 # 1) + (200 # 2))%Q);
      (("X", "Software"), Fin (0 + (100 # 1))%Q);
      (("Y", "AI"), Fin (0 + (200 # 2))%Q) ].
Proof. vm_compute. reflexivity. Qed.

(** ** Analysis #6: the groups that are averaged *)

Section Task6Groups.
Context {SV : SortValues}.

End Task6Groups.

